(** * The gateway reliability layer of the EventBoard microservices

    A shallow embedding of
    - [api-gateway/src/common/utils/retry.util.ts]  ([retryWithBackoff]),
    - [events-service/src/common/services/idempotency.service.ts]
      ([IdempotencyService]),
    - [api-gateway/src/common/interceptors/correlation-id.interceptor.ts]
      ([CorrelationIdInterceptor]),
    - the gateway's [EventsController] and [AuthController] and the
      [EventsController] and [AuthController] of the two services, which
      compose them,
    - [events-service/src/events/events.service.ts] and the slug of
      [auth-service/src/auth/auth.service.ts],
    followed by the properties of the specification that concern them.
    The gateway's [JwtAuthGuard] and the network between the gateway and
    the services are parameters. *)

From Stdlib Require Import ZArith Lia Bool Ascii.
From stdpp Require Import gmap strings list.
From Equations Require Import Equations.

Local Open Scope string_scope.
Local Open Scope Z_scope.

(** ** JavaScript values

    Only the fragment the reliability layer inspects: a field that may be
    missing ([undefined]), a string or a number.  Numbers are integers and
    their arithmetic is exact: fractional configuration values and the
    rounding of doubles are outside the model. *)
Module Js.

Inductive JsValue : Type :=
| JUndefined
| JString (s : string)
| JNumber (n : Z).

(** [a === b] *)
Definition strictEq (a b : JsValue) : bool :=
  match a, b with
  | JUndefined, JUndefined => true
  | JString s, JString t => bool_decide (s = t)
  | JNumber n, JNumber m => bool_decide (n = m)
  | _, _ => false
  end.

(** Truthiness of a [string | undefined], as tested by [!key] and [a || b]. *)
Definition truthy (v : option string) : bool :=
  match v with
  | Some s => negb (bool_decide (s = ""))
  | None => false
  end.

(** An error object, with the two fields [retryWithBackoff] reads. *)
Record JsError : Type := mkError {
  name : string;
  message : string;
  code : JsValue;
  status : JsValue
}.

(** The result of awaiting a promise, or of the first notification of an
    observable: a value or a thrown error. *)
Inductive Outcome (T : Type) : Type :=
| Ok (v : T)
| Err (e : JsError).
Arguments Ok {T} v.
Arguments Err {T} e.

End Js.
Import Js.

(** ** retry.util.ts *)
Module Retry.

Record RetryConfig : Type := mkConfig {
  maxAttempts : option Z;
  delayMs : option Z;
  backoffMultiplier : option Z;
  retryableErrors : option (list string)
}.

(** [retryWithBackoff()] : [config = {}] *)
Definition emptyConfig : RetryConfig := mkConfig None None None None.

(** The destructuring defaults of [retryWithBackoff]. *)
Definition maxAttemptsOf (config : RetryConfig) : Z := default 3 (maxAttempts config).
Definition delayMsOf (config : RetryConfig) : Z := default 1000 (delayMs config).
Definition backoffMultiplierOf (config : RetryConfig) : Z :=
  default 2 (backoffMultiplier config).
Definition retryableErrorsOf (config : RetryConfig) : list string :=
  default ["ECONNREFUSED"; "ETIMEDOUT"; "ENOTFOUND"] (retryableErrors config).

(** [retryableErrors.some((code) => error.code === code) ||
     error.status === 503 || error.status === 504] *)
Definition isRetryable (config : RetryConfig) (error : JsError) : bool :=
  existsb (fun c => strictEq (code error) (JString c)) (retryableErrorsOf config)
  || strictEq (status error) (JNumber 503)
  || strictEq (status error) (JNumber 504).

(** [delayMs * Math.pow(backoffMultiplier, index)] *)
Definition delayFor (config : RetryConfig) (index : nat) : Z :=
  delayMsOf config * backoffMultiplierOf config ^ Z.of_nat index.

(** [attempt >= maxAttempts || !isRetryable], with [attempt = index + 1]. *)
Definition givesUp (config : RetryConfig) (index : nat) (error : JsError) : bool :=
  bool_decide (maxAttemptsOf config ≤ Z.of_nat index + 1)
  || negb (isRetryable config error).

Section Loop.
Context {S T : Type}.

(** A cold observable that notifies once, as [ClientProxy.send] does: a
    subscription runs the producer on the state of the world and yields a
    value or an error. *)
Definition Observable : Type := S → Outcome T * S.

(** What one subscription to the retried observable did: the notification
    delivered downstream, how many times the source was subscribed, the
    delays handed to [timer] between subscriptions, and the world left
    behind. *)
Record Run : Type := mkRun {
  result : Outcome T;
  invocations : nat;
  delays : list Z;
  final : S
}.

Definition again (d : Z) (r : Run) : Run :=
  mkRun (result r) (Datatypes.S (invocations r)) (d :: delays r) (final r).

(** [source.pipe(retryWhen(errors => errors.pipe(mergeMap((error, index) => ...))))]:
    the source is subscribed; its error number [index] goes through the
    [mergeMap] callback, which either rethrows it or waits [timer(delay)]
    and lets [retryWhen] subscribe to the source again. *)
Equations? retryFrom (config : RetryConfig) (source : Observable)
    (index : nat) (s : S) : Run
    by wf (Z.to_nat (maxAttemptsOf config - Z.of_nat index)) lt :=
  retryFrom config source index s with source s => {
    | (Ok v, s') := mkRun (Ok v) 1 [] s';
    | (Err error, s') with sumbool_of_bool (givesUp config index error) => {
        | left _ := mkRun (Err error) 1 [] s';
        | right Hgo :=
            again (delayFor config index)
                  (retryFrom config source (Datatypes.S index) s') } }.
Proof.
  unfold givesUp in Hgo. apply orb_false_elim in Hgo as [Hlt _].
  apply bool_decide_eq_false in Hlt. lia.
Qed.

Definition retryWithBackoff (config : RetryConfig) (source : Observable) : S → Run :=
  retryFrom config source 0%nat.

(** The world after [k] subscriptions to [source], one after the other, and
    the notification of the next one (attempt number [k + 1]). *)
Fixpoint stateAfter (source : Observable) (k : nat) (s : S) : S :=
  match k with
  | O => s
  | Datatypes.S k' => stateAfter source k' (source s).2
  end.

Definition attempt (source : Observable) (k : nat) (s : S) : Outcome T :=
  (source (stateAfter source k s)).1.

End Loop.

End Retry.

(** ** idempotency.service.ts (events-service) *)
Module Idempotency.

(** [private readonly ttlMs = 24 * 60 * 60 * 1000; // 24 hours] *)
Definition ttlMs : Z := 24 * 60 * 60 * 1000.

Record IdempotencyRecord (Value : Type) : Type := mkRecord {
  key : string;
  response : Value;
  timestamp : Z
}.
Arguments mkRecord {Value} key response timestamp.
Arguments key {Value} _.
Arguments response {Value} _.
Arguments timestamp {Value} _.

(** What [checkAndStore] does to its surroundings, in program order: the
    call of [operation()], the calls on [this.cache] and the call of
    [this.cleanupExpired()]. *)
Inductive Event : Type :=
| Invoked
| CacheGet (k : string)
| CacheDelete (k : string)
| CacheSet (k : string)
| Cleanup.

(** The service instance ([cache]), the clock read by [Date.now()], and the
    record of effects. *)
Record World (Value : Type) : Type := mkWorld {
  cache : gmap string (IdempotencyRecord Value);
  now : Z;
  log : list Event
}.
Arguments mkWorld {Value} cache now log.
Arguments cache {Value} _.
Arguments now {Value} _.
Arguments log {Value} _.

Section Service.
Context {Value : Type}.

(** Code running against the service: it may throw, and it may change the
    world. *)
Definition M (A : Type) : Type := World Value → Outcome A * World Value.

#[export] Instance M_ret : MRet M := λ A a w, (Ok a, w).
#[export] Instance M_bind : MBind M := λ A B f m w,
  match m w with
  | (Ok a, w') => f a w'
  | (Err e, w') => (Err e, w')
  end.

Definition emit (ev : Event) (w : World Value) : World Value :=
  mkWorld (cache w) (now w) (log w ++ [ev]).

(** [Date.now()] *)
Definition dateNow : M Z := λ w, (Ok (now w), w).

(** [this.cache.get(key)] *)
Definition cacheGet (k : string) : M (option (IdempotencyRecord Value)) :=
  λ w, (Ok (cache w !! k), emit (CacheGet k) w).

(** [this.cache.delete(key)] *)
Definition cacheDelete (k : string) : M unit :=
  λ w, (Ok tt, emit (CacheDelete k) (mkWorld (delete k (cache w)) (now w) (log w))).

(** [this.cache.set(key, record)] *)
Definition cacheSet (k : string) (r : IdempotencyRecord Value) : M unit :=
  λ w, (Ok tt, emit (CacheSet k) (mkWorld (<[k:=r]> (cache w)) (now w) (log w))).

(** [operation: () => Promise<any>].  The closure is opaque to the service:
    started when the clock shows [t], it settles with a value or a
    rejection, and the clock shows the second component by then.  It has
    no access to the private [cache]. *)
Definition Operation : Type := Z → Outcome Value * Z.

(** [await operation()] *)
Definition call (operation : Operation) : M Value :=
  λ w, let '(o, t) := operation (now w) in
       (o, emit Invoked (mkWorld (cache w) t (log w))).

(** [now - record.timestamp > this.ttlMs], the test of [cleanupExpired]. *)
Definition sweepable (t : Z) (kr : string * IdempotencyRecord Value) : Prop :=
  ttlMs < t - timestamp kr.2.

#[export] Instance sweepable_dec t kr : Decision (sweepable t kr).
Proof. unfold sweepable. apply _. Defined.

(** [private cleanupExpired(): void]: one reading of the clock, then every
    entry whose age is greater than the TTL is deleted. *)
Definition cleanupExpired : M unit :=
  λ w, (Ok tt,
        emit Cleanup
          (mkWorld (filter (λ kr, ¬ sweepable (now w) kr) (cache w)) (now w) (log w))).

(** [async checkAndStore(key: string | undefined, operation)] *)
Definition checkAndStore (key : option string) (operation : Operation) : M Value :=
  if negb (truthy key) then call operation
  else
    let k := default "" key in
    existing ← cacheGet k;
    cached ← match existing with
             | Some record =>
                 t ← dateNow;
                 let age := t - timestamp record in
                 if bool_decide (age < ttlMs)
                 then mret (Some (response record))
                 else cacheDelete k ≫= λ _, mret None
             | None => mret None
             end;
    match cached with
    | Some r => mret r
    | None =>
        response ← call operation;
        t ← dateNow;
        cacheSet k (mkRecord k response t) ≫= λ _,
        cleanupExpired ≫= λ _,
        mret response
    end.

(** Lines 36 to 49 of [checkAndStore] on their own: what a call that gets
    as far as [await operation()] does from there on, with the cache [c],
    the clock [t] and the log [l] it has by then. *)
Definition proceed (k : string) (operation : Operation)
    (c : gmap string (IdempotencyRecord Value)) (t : Z) (l : list Event)
  : Outcome Value * World Value :=
  match operation t with
  | (Ok v, t') =>
      (Ok v,
       mkWorld (filter (λ kr, ¬ sweepable t' kr) (<[k := mkRecord k v t']> c)) t'
               (((l ++ [Invoked]) ++ [CacheSet k]) ++ [Cleanup]))
  | (Err e, t') => (Err e, mkWorld c t' (l ++ [Invoked]))
  end.

(** [clear(): void] *)
Definition clear : M unit :=
  λ w, (Ok tt, mkWorld ∅ (now w) (log w)).

(** The class invariant of the private [cache]: [checkAndStore] files a
    record under the truthy key it was called with, so no record sits under
    the empty string and each record carries its own key. *)
Definition wellKeyed (w : World Value) : Prop :=
  ∀ k r, cache w !! k = Some r → k ≠ "" ∧ key r = k.

(** How often [operation()] was called, and how often the store was
    touched, according to a log. *)
Definition isInvoked (ev : Event) : bool :=
  match ev with Invoked => true | _ => false end.

Definition invocationsIn (l : list Event) : nat :=
  length (List.filter isInvoked l).

Definition storeAccessesIn (l : list Event) : nat :=
  length (List.filter (λ ev, negb (isInvoked ev)) l).

End Service.

End Idempotency.

(** ** correlation-id.interceptor.ts (api-gateway) *)
Module Correlation.

(** The express request: its headers (Node lower-cases the names) and the
    [correlationId] property the interceptor adds. *)
Record Request : Type := mkRequest {
  headers : gmap string string;
  correlationId : option string
}.

Record Response : Type := mkResponse {
  responseHeaders : gmap string string
}.

(** [request.headers['x-correlation-id'] || randomUUID()]; [uuid] is what
    [randomUUID()] returns when it is called. *)
Definition resolve (uuid : string) (request : Request) : string :=
  let inbound := headers request !! "x-correlation-id" in
  if truthy inbound then default "" inbound else uuid.

(** [intercept(context, next)], up to the call of [next.handle()]:
    [request.correlationId = correlationId] and
    [response.setHeader('X-Correlation-ID', correlationId)]. *)
Definition intercept (uuid : string) (request : Request) (response : Response)
  : Request * Response :=
  let correlationId := resolve uuid request in
  (mkRequest (headers request) (Some correlationId),
   mkResponse (<["X-Correlation-ID" := correlationId]> (responseHeaders response))).

End Correlation.

(** ** events.controller.ts (events-service) *)
Module EventsService.
Import Idempotency.

(** [@Payload() data] of [events.create] and of [events.findAll]. *)
Record CreatePayload (Dto : Type) : Type := mkCreatePayload {
  dto : Dto;
  userId : string;
  organizationId : string;
  correlationId : option string;
  idempotencyKey : option string
}.
Arguments mkCreatePayload {Dto} _ _ _ _ _.
Arguments dto {Dto} _.
Arguments userId {Dto} _.
Arguments organizationId {Dto} _.
Arguments correlationId {Dto} _.
Arguments idempotencyKey {Dto} _.

Record FindAllPayload (Query : Type) : Type := mkFindAllPayload {
  query : Query;
  fuserId : string;
  forganizationId : string;
  role : string;
  fcorrelationId : option string
}.
Arguments mkFindAllPayload {Query} _ _ _ _ _.
Arguments query {Query} _.
Arguments fuserId {Query} _.
Arguments forganizationId {Query} _.
Arguments role {Query} _.
Arguments fcorrelationId {Query} _.

(** The injected [EventsService] (events.service.ts): database work, opaque
    here. *)
Class Events (Dto Query Value : Type) : Type := {
  createEvent : Dto → string → string → Operation (Value := Value);
  findAllPaginated : Query → string → string → string → Operation (Value := Value)
}.

Section Controller.
Context {Dto Query Value : Type} `{!Events Dto Query Value}.

(** [@MessagePattern({ cmd: 'events.create' })] *)
Definition create (data : CreatePayload Dto) : M (Value := Value) Value :=
  checkAndStore (idempotencyKey data)
    (createEvent (dto data) (userId data) (organizationId data)).

(** [@MessagePattern({ cmd: 'events.findAll' })] *)
Definition findAll (data : FindAllPayload Query) : M (Value := Value) Value :=
  call (findAllPaginated (query data) (forganizationId data) (fuserId data) (role data)).

End Controller.

End EventsService.

(** ** events.controller.ts (events-service), the other handlers *)
Module EventsRoutes.
Import Idempotency.

(** The methods of the injected [EventsService] these handlers call, opaque
    as in [EventsService.Events]. *)
Class Moderation (Dto RejectDto Value : Type) : Type := {
  findOneEvent : string → string → string → string → Operation (Value := Value);
  updateEvent : string → Dto → string → string → string → Operation (Value := Value);
  removeEvent : string → string → string → string → Operation (Value := Value);
  submitEvent : string → string → string → Operation (Value := Value);
  approveEvent : string → string → string → string → Operation (Value := Value);
  rejectEvent : string → RejectDto → string → string → string
                → Operation (Value := Value)
}.

Section Handlers.
Context {Dto RejectDto Value : Type} `{!Moderation Dto RejectDto Value}.

(** Each handler takes the fields of its [@Payload() data]. *)

(** [@MessagePattern({ cmd: 'events.findOne' })] *)
Definition findOne (id userId organizationId role : string)
    (correlationId : option string) : M (Value := Value) Value :=
  call (findOneEvent id organizationId userId role).

(** [@MessagePattern({ cmd: 'events.update' })] *)
Definition update (id : string) (dto : Dto) (userId organizationId role : string)
    (correlationId : option string) : M (Value := Value) Value :=
  call (updateEvent id dto organizationId userId role).

(** [@MessagePattern({ cmd: 'events.delete' })] *)
Definition remove (id userId organizationId role : string)
    (correlationId : option string) : M (Value := Value) Value :=
  call (removeEvent id organizationId userId role).

(** [@MessagePattern({ cmd: 'events.submit' })] *)
Definition submit (id userId organizationId : string)
    (correlationId idempotencyKey : option string) : M (Value := Value) Value :=
  checkAndStore idempotencyKey (submitEvent id organizationId userId).

(** [@MessagePattern({ cmd: 'events.approve' })] *)
Definition approve (id organizationId role approvedBy : string)
    (correlationId idempotencyKey : option string) : M (Value := Value) Value :=
  checkAndStore idempotencyKey (approveEvent id organizationId role approvedBy).

(** [@MessagePattern({ cmd: 'events.reject' })] *)
Definition reject (id : string) (rejectDto : RejectDto)
    (organizationId role rejectedBy : string)
    (correlationId idempotencyKey : option string) : M (Value := Value) Value :=
  checkAndStore idempotencyKey
    (rejectEvent id rejectDto organizationId role rejectedBy).

End Handlers.

End EventsRoutes.

(** ** The correlation id in the payloads of the auth routes *)
Module AuthRoutes.
Import Idempotency Correlation.

(** [{ ...signupDto, correlationId: req.correlationId }] in the gateway's
    auth.controller.ts.  A body is a parsed JSON object; only its top-level
    keys matter here. *)
Definition withCorrelation (dto : gmap string JsValue) (req : Request)
  : gmap string JsValue :=
  <["correlationId" := from_option JString JUndefined (correlationId req)]> dto.

(** [const { correlationId, ...signupDto } = data] in the auth-service's
    auth.controller.ts. *)
Definition splitCorrelation (data : gmap string JsValue)
  : JsValue * gmap string JsValue :=
  (default JUndefined (data !! "correlationId"), delete "correlationId" data).

(** The methods of the injected [AuthService] (auth.service.ts) the
    handlers call: database, bcrypt and JWT work, opaque here. *)
Class Auth (Value : Type) : Type := {
  authSignup : gmap string JsValue → Operation (Value := Value);
  authLogin : gmap string JsValue → Operation (Value := Value);
  authGetMe : string → Operation (Value := Value)
}.

Section Handlers.
Context {Value : Type} `{!Auth Value}.

(** [@MessagePattern({ cmd: 'auth.signup' })] of the auth-service *)
Definition signup (data : gmap string JsValue) : Operation (Value := Value) :=
  authSignup (splitCorrelation data).2.

(** [@MessagePattern({ cmd: 'auth.login' })] *)
Definition login (data : gmap string JsValue) : Operation (Value := Value) :=
  authLogin (splitCorrelation data).2.

(** [@MessagePattern({ cmd: 'auth.getMe' })] *)
Definition getMe (userId : string) (correlationId : option string)
  : Operation (Value := Value) :=
  authGetMe userId.

End Handlers.

End AuthRoutes.

(** ** events.controller.ts and auth.controller.ts (api-gateway) *)
Module Gateway.
Import Retry Idempotency Correlation.

(** rxjs's [TimeoutError]: a name and a message, no [code], no [status]. *)
Definition TimeoutError : JsError :=
  mkError "TimeoutError" "Timeout has occurred" JUndefined JUndefined.

Section Timeout.
Context {S T : Type}.

(** An observable together with the time, in milliseconds after the
    subscription, at which its notification arrives. *)
Definition Timed : Type := S → (Outcome T * Z) * S.

(** rxjs [timeout(due)]: the notification passes if it arrives within [due]
    milliseconds; past that the subscriber gets a [TimeoutError] instead. *)
Definition timeout (due : Z) (source : Timed) : Observable (S := S) (T := T) :=
  λ s, let '((o, latency), s') := source s in
       if bool_decide (due < latency) then (Err TimeoutError, s') else (o, s').

(** [firstValueFrom(...)]: the promise settles with what the pipe
    delivers. *)
Definition firstValueFrom (r : Run (S := S) (T := T)) : Outcome T := result r.

End Timeout.

(** [@CurrentUser() user] *)
Record User : Type := mkUser {
  id : string;
  uorganizationId : string;
  urole : string
}.

(** The messages [this.eventsClient.send] and [this.authClient.send] are
    given: the pattern and the fields of the payload.  Request bodies
    ([createEventDto], [updateEventDto], [rejectDto]) are all of the one
    type [Dto].  The pattern [auth.validateUser] of the auth-service is
    sent by neither controller. *)
Inductive Message (Dto Query : Type) : Type :=
| EventsCreate (data : EventsService.CreatePayload Dto)
| EventsFindAll (data : EventsService.FindAllPayload Query)
| EventsFindOne (id userId organizationId role : string)
    (correlationId : option string)
| EventsUpdate (id : string) (dto : Dto) (userId organizationId role : string)
    (correlationId : option string)
| EventsDelete (id userId organizationId role : string)
    (correlationId : option string)
| EventsSubmit (id userId organizationId : string)
    (correlationId idempotencyKey : option string)
| EventsApprove (id organizationId role approvedBy : string)
    (correlationId idempotencyKey : option string)
| EventsReject (id : string) (rejectDto : Dto)
    (organizationId role rejectedBy : string)
    (correlationId idempotencyKey : option string)
| AuthSignup (data : gmap string JsValue)
| AuthLogin (data : gmap string JsValue)
| AuthGetMe (userId : string) (correlationId : option string).
Arguments EventsCreate {Dto Query} data.
Arguments EventsFindAll {Dto Query} data.
Arguments EventsFindOne {Dto Query} _ _ _ _ _.
Arguments EventsUpdate {Dto Query} _ _ _ _ _ _.
Arguments EventsDelete {Dto Query} _ _ _ _ _.
Arguments EventsSubmit {Dto Query} _ _ _ _ _.
Arguments EventsApprove {Dto Query} _ _ _ _ _ _.
Arguments EventsReject {Dto Query} _ _ _ _ _ _ _.
Arguments AuthSignup {Dto Query} data.
Arguments AuthLogin {Dto Query} data.
Arguments AuthGetMe {Dto Query} _ _.

(** The [correlationId] field of a JSON payload, when it is a string. *)
Definition correlationField (data : gmap string JsValue) : option string :=
  match data !! "correlationId" with
  | Some (JString c) => Some c
  | _ => None
  end.

Definition correlationOf {Dto Query} (msg : Message Dto Query) : option string :=
  match msg with
  | EventsCreate data => EventsService.correlationId data
  | EventsFindAll data => EventsService.fcorrelationId data
  | EventsFindOne _ _ _ _ correlationId => correlationId
  | EventsUpdate _ _ _ _ _ correlationId => correlationId
  | EventsDelete _ _ _ _ correlationId => correlationId
  | EventsSubmit _ _ _ correlationId _ => correlationId
  | EventsApprove _ _ _ _ correlationId _ => correlationId
  | EventsReject _ _ _ _ _ correlationId _ => correlationId
  | AuthSignup data => correlationField data
  | AuthLogin data => correlationField data
  | AuthGetMe _ correlationId => correlationId
  end.

(** The [idempotencyKey] field of the payloads that have one. *)
Definition idempotencyKeyOf {Dto Query} (msg : Message Dto Query) : option string :=
  match msg with
  | EventsCreate data => EventsService.idempotencyKey data
  | EventsSubmit _ _ _ _ idempotencyKey => idempotencyKey
  | EventsApprove _ _ _ _ _ idempotencyKey => idempotencyKey
  | EventsReject _ _ _ _ _ _ idempotencyKey => idempotencyKey
  | _ => None
  end.

(** How the TCP client fares with one subscription: the message reaches
    the service and the network takes [rtt] milliseconds of the round
    trip, or the connection fails with [error] (ECONNREFUSED and the like)
    [after] milliseconds, before any handler has run. *)
Inductive Link : Type :=
| Delivered (rtt : Z)
| Failed (error : JsError) (after : Z).

Definition isDelivered (l : Link) : bool :=
  match l with Delivered _ => true | Failed _ _ => false end.

(** Of the [n] subscriptions from number [from] on, those that reach the
    service. *)
Definition deliveries (net : nat → Link) (from n : nat) : nat :=
  length (List.filter (λ i, isDelivered (net i)) (seq from n)).

(** The routes of the gateway with what their decorators take from the
    URL and the body: those behind [@UseGuards(JwtAuthGuard)] (the whole
    events controller and [GET /auth/me]) and the two that are open. *)
Inductive Guarded (Dto Query : Type) : Type :=
| PostEvents (createEventDto : Dto)
| GetEvents (query : Query)
| GetEvent (eventId : string)
| PatchEvent (eventId : string) (updateEventDto : Dto)
| DeleteEvent (eventId : string)
| PostSubmit (eventId : string)
| PostApprove (eventId : string)
| PostReject (eventId : string) (rejectDto : Dto)
| GetMe.

Inductive Public : Type :=
| PostSignup (signupDto : gmap string JsValue)
| PostLogin (loginDto : gmap string JsValue).

Inductive Route (Dto Query : Type) : Type :=
| Behind (g : Guarded Dto Query)
| Open (p : Public).

Arguments PostEvents {Dto Query} _.
Arguments GetEvents {Dto Query} _.
Arguments GetEvent {Dto Query} _.
Arguments PatchEvent {Dto Query} _ _.
Arguments DeleteEvent {Dto Query} _.
Arguments PostSubmit {Dto Query} _.
Arguments PostApprove {Dto Query} _.
Arguments PostReject {Dto Query} _ _.
Arguments GetMe {Dto Query}.
Arguments Behind {Dto Query} g.
Arguments Open {Dto Query} p.

(** The routes whose handler takes [@Headers('idempotency-key')]. *)
Definition keyed {Dto Query} (g : Guarded Dto Query) : bool :=
  match g with
  | PostEvents _ | PostSubmit _ | PostApprove _ | PostReject _ _ => true
  | _ => false
  end.

(** The gateway's view of the world: the events-service behind the TCP
    client (with the clock), and the messages given to the clients so far,
    one for each subscription. *)
Record System (Dto Query Value : Type) : Type := mkSystem {
  service : World Value;
  sent : list (Message Dto Query)
}.
Arguments mkSystem {Dto Query Value} service sent.
Arguments service {Dto Query Value} _.
Arguments sent {Dto Query Value} _.

Section Controller.
Context {Dto Query Value : Type} `{!EventsService.Events Dto Query Value}
  `{!EventsRoutes.Moderation Dto Dto Value} `{!AuthRoutes.Auth Value}.
(** The state of the connection at each subscription, counted from the
    start of the system, and the shape in which the transport hands a
    rejection of the service to the gateway. *)
Context (net : nat → Link) (wire : JsError → JsError).
(** [JwtAuthGuard] with its [JwtStrategy]: the user the bearer token of a
    request stands for, or a refusal (401). *)
Context (guard : Request → option User).

(** A handler of the auth-service: the clock moves, the events-service is
    not involved. *)
Definition elsewhere (operation : Operation (Value := Value)) : M (Value := Value) Value :=
  λ w, let '(o, t) := operation (now w) in (o, mkWorld (cache w) t (log w)).

(** The [@MessagePattern] routing of the events-service and of the
    auth-service. *)
Definition dispatch (msg : Message Dto Query) : M (Value := Value) Value :=
  match msg with
  | EventsCreate data => EventsService.create data
  | EventsFindAll data => EventsService.findAll data
  | EventsFindOne id userId organizationId role correlationId =>
      EventsRoutes.findOne id userId organizationId role correlationId
  | EventsUpdate id dto userId organizationId role correlationId =>
      EventsRoutes.update id dto userId organizationId role correlationId
  | EventsDelete id userId organizationId role correlationId =>
      EventsRoutes.remove id userId organizationId role correlationId
  | EventsSubmit id userId organizationId correlationId idempotencyKey =>
      EventsRoutes.submit id userId organizationId correlationId idempotencyKey
  | EventsApprove id organizationId role approvedBy correlationId idempotencyKey =>
      EventsRoutes.approve id organizationId role approvedBy correlationId
        idempotencyKey
  | EventsReject id rejectDto organizationId role rejectedBy correlationId
      idempotencyKey =>
      EventsRoutes.reject id rejectDto organizationId role rejectedBy correlationId
        idempotencyKey
  | AuthSignup data => elsewhere (AuthRoutes.signup data)
  | AuthLogin data => elsewhere (AuthRoutes.login data)
  | AuthGetMe userId correlationId => elsewhere (AuthRoutes.getMe userId correlationId)
  end.

(** [client.send(pattern, data)]: each subscription gives the message to
    the TCP client.  If the connection stands, the service handles the
    message and the reply comes back after the handler's time plus the
    network's; if it fails, the subscriber gets the connection error and
    no handler runs. *)
Definition send (msg : Message Dto Query)
  : Timed (S := System Dto Query Value) (T := Value) :=
  λ sys,
    match net (length (sent sys)) with
    | Delivered rtt =>
        let '(o, w') := dispatch msg (service sys) in
        let reply := match o with Ok v => Ok v | Err e => Err (wire e) end in
        ((reply, rtt + (now w' - now (service sys))),
         mkSystem w' (sent sys ++ [msg]))
    | Failed error after =>
        ((Err error, after), mkSystem (service sys) (sent sys ++ [msg]))
    end.

(** [@Post() async create(...)]: the run of
    [send(...).pipe(timeout(10000), retryWithBackoff({ maxAttempts: 1 }))];
    the handler returns [firstValueFrom] of it. *)
Definition create (createEventDto : Dto) (user : User) (req : Request)
    (idempotencyKey : option string)
  : System Dto Query Value → Run (S := System Dto Query Value) (T := Value) :=
  retryWithBackoff (mkConfig (Some 1) None None None)
    (timeout 10000
       (send (EventsCreate
                (EventsService.mkCreatePayload createEventDto (id user)
                   (uorganizationId user) (Correlation.correlationId req)
                   idempotencyKey)))).

(** [@Get() async findAll(...)]: the run of
    [send(...).pipe(timeout(10000), retryWithBackoff({ maxAttempts: 3 }))]. *)
Definition findAll (query : Query) (user : User) (req : Request)
  : System Dto Query Value → Run (S := System Dto Query Value) (T := Value) :=
  retryWithBackoff (mkConfig (Some 3) None None None)
    (timeout 10000
       (send (EventsFindAll
                (EventsService.mkFindAllPayload query (id user)
                   (uorganizationId user) (urole user)
                   (Correlation.correlationId req))))).

(** [@Get(':id') async findOne(...)] *)
Definition findOne (eventId : string) (user : User) (req : Request)
  : System Dto Query Value → Run (S := System Dto Query Value) (T := Value) :=
  retryWithBackoff (mkConfig (Some 3) None None None)
    (timeout 5000
       (send (EventsFindOne eventId (id user) (uorganizationId user) (urole user)
                (Correlation.correlationId req)))).

(** [@Patch(':id') async update(...)] *)
Definition update (eventId : string) (updateEventDto : Dto) (user : User)
    (req : Request)
  : System Dto Query Value → Run (S := System Dto Query Value) (T := Value) :=
  retryWithBackoff (mkConfig (Some 1) None None None)
    (timeout 10000
       (send (EventsUpdate eventId updateEventDto (id user) (uorganizationId user)
                (urole user) (Correlation.correlationId req)))).

(** [@Delete(':id') async remove(...)] *)
Definition remove (eventId : string) (user : User) (req : Request)
  : System Dto Query Value → Run (S := System Dto Query Value) (T := Value) :=
  retryWithBackoff (mkConfig (Some 1) None None None)
    (timeout 10000
       (send (EventsDelete eventId (id user) (uorganizationId user) (urole user)
                (Correlation.correlationId req)))).

(** [@Post(':id/submit') async submit(...)] *)
Definition submit (eventId : string) (user : User) (req : Request)
    (idempotencyKey : option string)
  : System Dto Query Value → Run (S := System Dto Query Value) (T := Value) :=
  retryWithBackoff (mkConfig (Some 1) None None None)
    (timeout 10000
       (send (EventsSubmit eventId (id user) (uorganizationId user)
                (Correlation.correlationId req) idempotencyKey))).

(** [@Post(':id/approve') async approve(...)] *)
Definition approve (eventId : string) (user : User) (req : Request)
    (idempotencyKey : option string)
  : System Dto Query Value → Run (S := System Dto Query Value) (T := Value) :=
  retryWithBackoff (mkConfig (Some 1) None None None)
    (timeout 10000
       (send (EventsApprove eventId (uorganizationId user) (urole user) (id user)
                (Correlation.correlationId req) idempotencyKey))).

(** [@Post(':id/reject') async reject(...)] *)
Definition reject (eventId : string) (rejectDto : Dto) (user : User)
    (req : Request) (idempotencyKey : option string)
  : System Dto Query Value → Run (S := System Dto Query Value) (T := Value) :=
  retryWithBackoff (mkConfig (Some 1) None None None)
    (timeout 10000
       (send (EventsReject eventId rejectDto (uorganizationId user) (urole user)
                (id user) (Correlation.correlationId req) idempotencyKey))).

(** [@Post('signup') async signup(...)] of auth.controller.ts *)
Definition signup (signupDto : gmap string JsValue) (req : Request)
  : System Dto Query Value → Run (S := System Dto Query Value) (T := Value) :=
  retryWithBackoff (mkConfig (Some 2) None None None)
    (timeout 5000 (send (AuthSignup (AuthRoutes.withCorrelation signupDto req)))).

(** [@Post('login') async login(...)] *)
Definition login (loginDto : gmap string JsValue) (req : Request)
  : System Dto Query Value → Run (S := System Dto Query Value) (T := Value) :=
  retryWithBackoff (mkConfig (Some 2) None None None)
    (timeout 5000 (send (AuthLogin (AuthRoutes.withCorrelation loginDto req)))).

(** [@Get('me') async getMe(...)] *)
Definition getMe (user : User) (req : Request)
  : System Dto Query Value → Run (S := System Dto Query Value) (T := Value) :=
  retryWithBackoff (mkConfig (Some 3) None None None)
    (timeout 5000 (send (AuthGetMe (id user) (Correlation.correlationId req)))).

(** The handler of a guarded route, with [@CurrentUser() user], [@Req() req]
    and, where it is declared, [@Headers('idempotency-key')]. *)
Definition handleGuarded (g : Guarded Dto Query) (user : User) (req : Request)
  : System Dto Query Value → Run (S := System Dto Query Value) (T := Value) :=
  let idempotencyKey := headers req !! "idempotency-key" in
  match g with
  | PostEvents createEventDto => create createEventDto user req idempotencyKey
  | GetEvents query => findAll query user req
  | GetEvent eventId => findOne eventId user req
  | PatchEvent eventId updateEventDto => update eventId updateEventDto user req
  | DeleteEvent eventId => remove eventId user req
  | PostSubmit eventId => submit eventId user req idempotencyKey
  | PostApprove eventId => approve eventId user req idempotencyKey
  | PostReject eventId rejectDto => reject eventId rejectDto user req idempotencyKey
  | GetMe => getMe user req
  end.

Definition handlePublic (p : Public) (req : Request)
  : System Dto Query Value → Run (S := System Dto Query Value) (T := Value) :=
  match p with
  | PostSignup signupDto => signup signupDto req
  | PostLogin loginDto => login loginDto req
  end.

(** A request on its way through the gateway.  Guards run before
    interceptors: a request the guard of its route refuses is answered
    (401) without the [CorrelationIdInterceptor] or the handler having
    run; any other goes through the global interceptor and then the
    handler ([next.handle()]).  The global [ValidationPipe] has nothing to
    refuse in between: bodies and queries are typed [any]. *)
Definition serve (uuid : string) (route : Route Dto Query) (request : Request)
    (response : Response) (sys : System Dto Query Value)
  : option (Run (S := System Dto Query Value) (T := Value)) * Response :=
  match route with
  | Behind g =>
      match guard request with
      | None => (None, response)
      | Some user =>
          let '(req, res) := intercept uuid request response in
          (Some (handleGuarded g user req sys), res)
      end
  | Open p =>
      let '(req, res) := intercept uuid request response in
      (Some (handlePublic p req sys), res)
  end.

End Controller.

End Gateway.

(** ** events.service.ts (events-service) *)
Module EventsDb.

(** [EventStatus] of the Prisma schema. *)
Inductive EventStatus : Type := DRAFT | SUBMITTED | APPROVED | REJECTED.

#[export] Instance EventStatus_eq_dec : EqDecision EventStatus.
Proof. solve_decision. Defined.

(** [`${event.status}`] *)
Definition statusName (s : EventStatus) : string :=
  match s with
  | DRAFT => "DRAFT"
  | SUBMITTED => "SUBMITTED"
  | APPROVED => "APPROVED"
  | REJECTED => "REJECTED"
  end.

(** A row of the [events] table.  Dates are instants in milliseconds. *)
Record Event : Type := mkEvent {
  id : string;
  title : string;
  description : string;
  location : option string;
  startDate : Z;
  endDate : Z;
  status : EventStatus;
  rejectionReason : option string;
  organizationId : string;
  createdById : string;
  createdAt : Z;
  updatedAt : Z
}.

(** The database behind [PrismaService]: the [events] table by primary key,
    and the clock Prisma stamps [updatedAt] with. *)
Record Db : Type := mkDb {
  events : gmap string Event;
  clock : Z
}.

(** A method of the service: it may throw, and it may change the table. *)
Definition D (A : Type) : Type := Db → Outcome A * Db.

Definition throw {A : Type} (e : JsError) : D A := λ db, (Err e, db).

(** The exceptions of [@nestjs/common]: [name] is the class name, [status]
    the HTTP status, and there is no [code]. *)
Definition ForbiddenException (msg : string) : JsError :=
  mkError "ForbiddenException" msg JUndefined (JNumber 403).
Definition NotFoundException (msg : string) : JsError :=
  mkError "NotFoundException" msg JUndefined (JNumber 404).
Definition ConflictException (msg : string) : JsError :=
  mkError "ConflictException" msg JUndefined (JNumber 409).

(** [this.prisma.event.update({ where: { id }, data })] on the row [event]
    that was just found under [id]: the columns named in [data] change,
    [updatedAt] is stamped, and the new row is returned. *)
Definition prismaUpdate (id : string) (event : Event) (data : Event → Event)
  : D Event :=
  λ db,
    let changed := data event in
    let row := mkEvent (EventsDb.id changed) (title changed) (description changed)
                 (location changed) (startDate changed) (endDate changed)
                 (status changed) (rejectionReason changed)
                 (organizationId changed) (createdById changed)
                 (createdAt changed) (clock db) in
    (Ok row, mkDb (<[id := row]> (events db)) (clock db)).

(** [data: { status, rejectionReason }] *)
Definition setStatus (s : EventStatus) (reason : option string) (e : Event) : Event :=
  mkEvent (id e) (title e) (description e) (location e) (startDate e) (endDate e)
    s reason (organizationId e) (createdById e) (createdAt e) (updatedAt e).

(** [data: { status }] alone: [rejectionReason: undefined] leaves the
    column as it is. *)
Definition setStatusOnly (s : EventStatus) (e : Event) : Event :=
  setStatus s (rejectionReason e) e.

(** [async findOne(id, organizationId, userId, userRole)] *)
Definition findOne (id organizationId userId userRole : string) : D Event :=
  λ db,
    match events db !! id with
    | None => throw (NotFoundException "Event not found") db
    | Some event =>
        if bool_decide (EventsDb.organizationId event ≠ organizationId)
        then throw (ForbiddenException "Access denied to this event") db
        else if bool_decide (userRole = "USER")
                && bool_decide (createdById event ≠ userId)
        then throw (ForbiddenException "Access denied to this event") db
        else (Ok event, db)
    end.

(** [updateEventDto], as far as [update] looks at it.  A field tested for
    truthiness is [None] when it is missing or otherwise falsy; a date that
    is present is the instant [new Date(...)] makes of it; [location] may
    be missing ([None]) or given, as [null] or a string. *)
Record UpdateDto : Type := mkUpdateDto {
  utitle : option string;
  udescription : option string;
  ulocation : option (option string);
  ustartDate : option Z;
  uendDate : option Z
}.

(** The [data] of [update]: a column is named only if its field passes the
    test in front of it. *)
Definition applyUpdate (dto : UpdateDto) (e : Event) : Event :=
  mkEvent (id e)
    (if truthy (utitle dto) then default "" (utitle dto) else title e)
    (if truthy (udescription dto) then default "" (udescription dto) else description e)
    (default (location e) (ulocation dto))
    (default (startDate e) (ustartDate dto))
    (default (endDate e) (uendDate dto))
    (status e) (rejectionReason e) (organizationId e) (createdById e)
    (createdAt e) (updatedAt e).

(** [async update(id, updateEventDto, organizationId, userId, userRole)] *)
Definition update (id : string) (updateEventDto : UpdateDto)
    (organizationId userId userRole : string) : D Event :=
  λ db,
    match events db !! id with
    | None => throw (NotFoundException "Event not found") db
    | Some event =>
        if bool_decide (EventsDb.organizationId event ≠ organizationId)
        then throw (ForbiddenException "Access denied to this event") db
        else if bool_decide (userRole = "USER")
                && bool_decide (createdById event ≠ userId)
        then throw (ForbiddenException "You can only edit your own events") db
        else if bool_decide (userRole = "USER")
                && bool_decide (status event ≠ DRAFT)
        then throw (ForbiddenException "You can only edit draft events") db
        else prismaUpdate id event (applyUpdate updateEventDto) db
    end.

(** [async remove(id, organizationId, userId, userRole)] *)
Definition remove (id organizationId userId userRole : string) : D unit :=
  λ db,
    match events db !! id with
    | None => throw (NotFoundException "Event not found") db
    | Some event =>
        if bool_decide (EventsDb.organizationId event ≠ organizationId)
        then throw (ForbiddenException "Access denied to this event") db
        else if bool_decide (userRole = "USER")
        then
          if bool_decide (createdById event ≠ userId)
          then throw (ForbiddenException "You can only delete your own events") db
          else if bool_decide (status event ≠ DRAFT)
          then throw (ForbiddenException "You can only delete draft events") db
          else (Ok tt, mkDb (delete id (events db)) (clock db))
        else if bool_decide (userRole = "MODERATOR")
        then throw (ForbiddenException "Moderators cannot delete events") db
        else (Ok tt, mkDb (delete id (events db)) (clock db))
    end.

(** [async submit(id, organizationId, userId)] *)
Definition submit (id organizationId userId : string) : D Event :=
  λ db,
    match events db !! id with
    | None => throw (NotFoundException "Event not found") db
    | Some event =>
        if bool_decide (EventsDb.organizationId event ≠ organizationId)
        then throw (ForbiddenException "Access denied to this event") db
        else if bool_decide (createdById event ≠ userId)
        then throw (ForbiddenException "You can only submit your own events") db
        else if bool_decide (status event ≠ DRAFT)
        then throw (ConflictException
                      ("Cannot submit event with status " ++ statusName (status event))) db
        else prismaUpdate id event (setStatus SUBMITTED None) db
    end.

(** [async approve(id, organizationId, userRole, approvedBy?)] *)
Definition approve (id organizationId userRole : string) (approvedBy : option string)
  : D Event :=
  λ db,
    if bool_decide (userRole = "USER")
    then throw (ForbiddenException "Only moderators and admins can approve events") db
    else
      match events db !! id with
      | None => throw (NotFoundException "Event not found") db
      | Some event =>
          if bool_decide (EventsDb.organizationId event ≠ organizationId)
          then throw (ForbiddenException "Access denied to this event") db
          else if bool_decide (status event ≠ SUBMITTED)
          then throw (ConflictException
                        ("Cannot approve event with status " ++ statusName (status event))) db
          else prismaUpdate id event (setStatus APPROVED None) db
      end.

(** [rejectDto.reason], as far as Prisma accepts it for a [String?]
    column: missing, [null], or a string. *)
Inductive Reason : Type :=
| ReasonUndefined
| ReasonNull
| ReasonText (s : string).

(** [data: { status: EventStatus.REJECTED, rejectionReason: rejectDto.reason }] *)
Definition setRejected (reason : Reason) (e : Event) : Event :=
  match reason with
  | ReasonUndefined => setStatusOnly REJECTED e
  | ReasonNull => setStatus REJECTED None e
  | ReasonText s => setStatus REJECTED (Some s) e
  end.

(** [async reject(id, rejectDto, organizationId, userRole, rejectedBy?)] *)
Definition reject (id : string) (reason : Reason) (organizationId userRole : string)
    (rejectedBy : option string) : D Event :=
  λ db,
    if bool_decide (userRole = "USER")
    then throw (ForbiddenException "Only moderators and admins can reject events") db
    else
      match events db !! id with
      | None => throw (NotFoundException "Event not found") db
      | Some event =>
          if bool_decide (EventsDb.organizationId event ≠ organizationId)
          then throw (ForbiddenException "Access denied to this event") db
          else if bool_decide (status event ≠ SUBMITTED)
          then throw (ConflictException
                        ("Cannot reject event with status " ++ statusName (status event))) db
          else prismaUpdate id event (setRejected reason) db
      end.

(** The methods that take an event id, as requests a controller can pass
    on. *)
Inductive Request : Type :=
| FindOne (userId userRole : string)
| Update (updateEventDto : UpdateDto) (userId userRole : string)
| Remove (userId userRole : string)
| Submit (userId : string)
| Approve (userRole : string) (approvedBy : option string)
| Reject (reason : Reason) (userRole : string) (rejectedBy : option string).

(** The outcome of a request on event [id] for a caller of
    [organizationId], with the value it returns forgotten, and the table
    it leaves. *)
Definition perform (req : Request) (id organizationId : string) (db : Db)
  : Outcome unit * Db :=
  let forget {A} (r : Outcome A * Db) : Outcome unit * Db :=
    (match r.1 with Ok _ => Ok tt | Err e => Err e end, r.2) in
  match req with
  | FindOne userId userRole => forget (findOne id organizationId userId userRole db)
  | Update dto userId userRole =>
      forget (update id dto organizationId userId userRole db)
  | Remove userId userRole => remove id organizationId userId userRole db
  | Submit userId => forget (submit id organizationId userId db)
  | Approve userRole approvedBy => forget (approve id organizationId userRole approvedBy db)
  | Reject reason userRole rejectedBy =>
      forget (reject id reason organizationId userRole rejectedBy db)
  end.

End EventsDb.

(** ** Using the idempotency service over time *)
Module ServiceRuns.
Import Idempotency.

Section Runs.
Context {Value : Type}.

(** The two public methods of [IdempotencyService], as calls a controller
    can make. *)
Inductive Call : Type :=
| CheckAndStore (key : option string) (operation : Operation (Value := Value))
| Clear.

Definition after (c : Call) (w : World Value) : World Value :=
  match c with
  | CheckAndStore key operation => (checkAndStore key operation w).2
  | Clear => (clear w).2
  end.

(** The states a service instance can be in: it starts with an empty
    [Map], its methods are called one after the other, and the clock moves
    between the calls. *)
Inductive reachable : World Value → Prop :=
| reachable_new (t : Z) : reachable (mkWorld ∅ t [])
| reachable_call (c : Call) (w : World Value) :
    reachable w → reachable (after c w)
| reachable_tick (t : Z) (w : World Value) :
    reachable w → reachable (mkWorld (cache w) t (log w)).

(** The same key presented again and again, each time with its own
    operation: the outcomes in order, and the world at the end. *)
Fixpoint callEach (key : option string) (operations : list (Operation (Value := Value)))
    (w : World Value) : list (Outcome Value) * World Value :=
  match operations with
  | [] => ([], w)
  | operation :: rest =>
      let '(o, w') := checkAndStore key operation w in
      let '(os, w'') := callEach key rest w' in
      (o :: os, w'')
  end.

End Runs.

End ServiceRuns.

(** ** The organization slug of auth.service.ts (auth-service)

    [signupDto.organizationName.toLowerCase()
       .replace(/[^a-z0-9]+/g, '-').replace(/^-|-$/g, '')],
    on names made of ASCII characters, one [ascii] per character. *)
Module Slug.

Definition dash : ascii := "-"%char.

Definition isUpper (c : ascii) : bool :=
  (65 <=? nat_of_ascii c)%nat && (nat_of_ascii c <=? 90)%nat.

(** [toLowerCase()], character by character. *)
Definition lower (c : ascii) : ascii :=
  if isUpper c then ascii_of_nat (nat_of_ascii c + 32) else c.

(** The class [[a-z0-9]]. *)
Definition isSlugChar (c : ascii) : bool :=
  ((97 <=? nat_of_ascii c)%nat && (nat_of_ascii c <=? 122)%nat)
  || ((48 <=? nat_of_ascii c)%nat && (nat_of_ascii c <=? 57)%nat).

(** [.replace(/[^a-z0-9]+/g, '-')]: every maximal run of characters
    outside the class becomes one dash; [inRun] says that the character
    before was outside the class. *)
Fixpoint dashRuns (inRun : bool) (s : list ascii) : list ascii :=
  match s with
  | [] => []
  | c :: rest =>
      if isSlugChar c then c :: dashRuns false rest
      else if inRun then dashRuns true rest
      else dash :: dashRuns true rest
  end.

(** [.replace(/^-|-$/g, '')]: a dash at the very start goes, then a dash at
    the very end of what is left. *)
Definition dropLeadingDash (s : list ascii) : list ascii :=
  match s with
  | c :: rest => if bool_decide (c = dash) then rest else s
  | [] => []
  end.

Fixpoint dropTrailingDash (s : list ascii) : list ascii :=
  match s with
  | [] => []
  | [c] => if bool_decide (c = dash) then [] else [c]
  | c :: rest => c :: dropTrailingDash rest
  end.

Definition slugChars (name : list ascii) : list ascii :=
  dropTrailingDash (dropLeadingDash (dashRuns false (lower <$> name))).

Definition slug (organizationName : string) : string :=
  String.string_of_list_ascii
    (slugChars (String.list_ascii_of_string organizationName)).

(** No two dashes next to each other. *)
Fixpoint noDoubleDash (s : list ascii) : Prop :=
  match s with
  | c :: rest =>
      (c = dash → head rest ≠ Some dash) ∧ noDoubleDash rest
  | [] => True
  end.

(** A slug as a URL wants it: characters of [[a-z0-9]] and single dashes
    between them, none at either end. *)
Definition tidy (s : list ascii) : Prop :=
  Forall (λ c, isSlugChar c = true ∨ c = dash) s
  ∧ noDoubleDash s
  ∧ head s ≠ Some dash
  ∧ last s ≠ Some dash.

End Slug.

(** ** The moderation workflow, read off events.service.ts *)
Module Workflow.
Import EventsDb.

(** The changes of [status] that [submit], [approve] and [reject] write. *)
Inductive transition : EventStatus → EventStatus → Prop :=
| submitting : transition DRAFT SUBMITTED
| approving : transition SUBMITTED APPROVED
| rejecting : transition SUBMITTED REJECTED.

(** Requests that move an event through the workflow. *)
Definition moderates (req : Request) : bool :=
  match req with
  | Submit _ | Approve _ _ | Reject _ _ _ => true
  | _ => false
  end.

End Workflow.

(** ** Concrete configurations, services and requests *)
Module Examples.
Import Retry Idempotency Correlation.

Definition refused : JsError :=
  mkError "Error" "connect ECONNREFUSED 127.0.0.1:3002" (JString "ECONNREFUSED") JUndefined.

Definition badRequest : JsError :=
  mkError "BadRequestException" "Bad Request" JUndefined (JNumber 400).

Definition unavailable : JsError :=
  mkError "ServiceUnavailableException" "Service Unavailable" JUndefined (JNumber 503).

(** A code that is not among the defaults of the retry policy. *)
Definition brokenPipe : JsError :=
  mkError "Error" "write EPIPE" (JString "EPIPE") JUndefined.

Definition attempts (n : Z) : RetryConfig := mkConfig (Some n) None None None.

(** A source that counts its subscriptions and fails each of them. *)
Definition alwaysFails (e : JsError) : Observable (S := nat) (T := string) :=
  λ n, (Err e, Datatypes.S n).

(** An events service whose writes take 20 ms and whose listing takes 20 s. *)
#[global] Instance slowList : EventsService.Events string string string := {|
  EventsService.createEvent dto userId organizationId :=
    λ t, (Ok ("created " ++ dto), t + 20);
  EventsService.findAllPaginated query organizationId userId role :=
    λ t, (Ok "[]", t + 20000)
|}.

Definition submitted : IdempotencyRecord string :=
  mkRecord "submit-42" "SUBMITTED" 1000.

(** A service that stored the result of ["submit-42"] at clock 1000. *)
Definition stored (t : Z) : World string :=
  mkWorld {[ "submit-42" := submitted ]} t [].

Definition fresh (t : Z) : World string := mkWorld ∅ t [].

Definition succeeds (v : string) : Operation (Value := string) := λ t, (Ok v, t + 5).
Definition fails (e : JsError) : Operation (Value := string) := λ t, (Err e, t + 5).

Definition alice : Gateway.User := Gateway.mkUser "user-1" "org-1" "USER".

Definition inbound (v : string) : Request :=
  mkRequest {[ "x-correlation-id" := v ]} None.
Definition anonymous : Request := mkRequest ∅ None.
Definition blank : Response := mkResponse ∅.

(** A draft of alice's in ["org-1"], alone in the table. *)
Definition draft : EventsDb.Event :=
  EventsDb.mkEvent "event-1" "Retreat" "Two days off-site" (Some "Lisbon")
    1780000000000 1780086400000 EventsDb.DRAFT None "org-1" "user-1"
    1770000000000 1770000000000.

Definition table (t : Z) : EventsDb.Db := EventsDb.mkDb {[ "event-1" := draft ]} t.

(** A moderation service whose every method answers with its own name. *)
#[global] Instance named : EventsRoutes.Moderation string string string := {|
  EventsRoutes.findOneEvent id organizationId userId role := λ t, (Ok "found", t + 5);
  EventsRoutes.updateEvent id dto organizationId userId role :=
    λ t, (Ok "updated", t + 5);
  EventsRoutes.removeEvent id organizationId userId role := λ t, (Ok "removed", t + 5);
  EventsRoutes.submitEvent id organizationId userId := λ t, (Ok "submitted", t + 5);
  EventsRoutes.approveEvent id organizationId role approvedBy :=
    λ t, (Ok "approved", t + 5);
  EventsRoutes.rejectEvent id rejectDto organizationId role rejectedBy :=
    λ t, (Ok "rejected", t + 5)
|}.

(** An auth service that answers every call in 30 ms. *)
#[global] Instance clerk : AuthRoutes.Auth string := {|
  AuthRoutes.authSignup dto := λ t, (Ok "signed up", t + 30);
  AuthRoutes.authLogin dto := λ t, (Ok "logged in", t + 30);
  AuthRoutes.authGetMe userId := λ t, (Ok ("profile of " ++ userId), t + 30)
|}.

(** A network on which every message is delivered, in [rtt] ms. *)
Definition steady (rtt : Z) : nat → Gateway.Link := λ _, Gateway.Delivered rtt.

(** A network that refuses the first [n] connections at once and is
    steady after that. *)
Definition flaky (n : nat) (rtt : Z) : nat → Gateway.Link :=
  λ i, if bool_decide (i < n)%nat then Gateway.Failed refused 1
       else Gateway.Delivered rtt.

(** A network that takes 9990 ms for the first message and 3 ms for the
    later ones. *)
Definition congested : nat → Gateway.Link :=
  λ i, match i with O => Gateway.Delivered 9990 | _ => Gateway.Delivered 3 end.

(** An events service that answers everything in 20 ms. *)
Definition quickList : EventsService.Events string string string := {|
  EventsService.createEvent dto userId organizationId :=
    λ t, (Ok ("created " ++ dto), t + 20);
  EventsService.findAllPaginated query organizationId userId role :=
    λ t, (Ok "[]", t + 20)
|}.

(** A guard that takes the value of the [authorization] header for a
    user of ["org-1"], and refuses a request without one. *)
Definition bearer : Request → option Gateway.User :=
  λ request,
    match headers request !! "authorization" with
    | Some token => Some (Gateway.mkUser token "org-1" "USER")
    | None => None
    end.

(** A request, past the interceptor, that carries an idempotency key. *)
Definition repeated (key : string) : Request :=
  mkRequest {[ "idempotency-key" := key ]} (Some "abc-123").

Definition signedIn (token : string) : Request :=
  mkRequest {[ "authorization" := token ]} None.

End Examples.

Import Retry Idempotency Correlation.

(** * Properties *)

(** ** JavaScript equality *)
Lemma strictEq_spec (a b : JsValue) : strictEq a b = true ↔ a = b.
Proof.
  destruct a, b; simpl; rewrite ?bool_decide_eq_true;
    split; intros H; try congruence; try discriminate.
Qed.


(** ** The retry loop *)
Section RetryFacts.
Context {S T : Type}.
Implicit Types (config : RetryConfig) (source : Observable (S := S) (T := T)).

Lemma retryFrom_unfold config source index s :
  retryFrom config source index s =
  match source s with
  | (Ok v, s') => mkRun (Ok v) 1 [] s'
  | (Err error, s') =>
      if givesUp config index error then mkRun (Err error) 1 [] s'
      else again (delayFor config index)
             (retryFrom config source (Datatypes.S index) s')
  end.
Proof.
  simp retryFrom. destruct (source s) as [[v|error] s']; simpl; [done|].
  destruct (sumbool_of_bool (givesUp config index error)) as [Hg|Hg];
    simpl; by rewrite Hg.
Qed.

Lemma isRetryable_iff config error :
  isRetryable config error = true ↔
  (∃ c, c ∈ retryableErrorsOf config ∧ code error = JString c)
  ∨ status error = JNumber 503 ∨ status error = JNumber 504.
Proof.
  unfold isRetryable. rewrite !orb_true_iff, existsb_exists, !strictEq_spec.
  split.
  - intros [[[c [Hin Hc]]|H]|H]; auto.
    apply strictEq_spec in Hc. left. exists c. by rewrite list_elem_of_In.
  - intros [[c [Hin Hc]]|[H|H]]; auto.
    left; left. exists c. by rewrite <- list_elem_of_In, strictEq_spec.
Qed.

(** A failure the classifier rejects ends the loop wherever it occurs. *)
Lemma retryFrom_not_retryable config source index s error s' :
  source s = (Err error, s') →
  isRetryable config error = false →
  retryFrom config source index s = mkRun (Err error) 1 [] s'.
Proof.
  intros Hs Hr. rewrite retryFrom_unfold, Hs.
  unfold givesUp. rewrite Hr. by rewrite orb_true_r.
Qed.

(** [m + 1] retryable failures in a row, the last of them on the attempt
    whose number is [maxAttempts]. *)
Lemma retryFrom_exhaust config source (n : nat) :
  maxAttemptsOf config = Z.of_nat n →
  ∀ (m index : nat) s,
    (index + m + 1 = n)%nat →
    (∀ k, (k ≤ m)%nat →
       ∃ error, attempt source k s = Err error ∧ isRetryable config error = true) →
    retryFrom config source index s =
    mkRun (attempt source m s) (Datatypes.S m)
          (delayFor config <$> seq index m)
          (stateAfter source (Datatypes.S m) s).
Proof.
  intros Hmax. induction m as [|m IH]; intros index s Hn Hfail.
  - destruct (Hfail 0%nat) as [error [Ha _]]; [lia|].
    unfold attempt in *. simpl in *. rewrite retryFrom_unfold.
    destruct (source s) as [o s']; simpl in *. subst o.
    unfold givesUp. rewrite bool_decide_eq_true_2 by lia. done.
  - destruct (Hfail 0%nat) as [error [Ha Hr]]; [lia|].
    rewrite retryFrom_unfold.
    unfold attempt in Ha; simpl in Ha.
    destruct (source s) as [o s'] eqn:Hs; simpl in Ha; subst o.
    unfold givesUp. rewrite bool_decide_eq_false_2 by lia. rewrite Hr. simpl.
    assert (Hrest : ∀ k, (k ≤ m)%nat →
              ∃ e, attempt source k s' = Err e ∧ isRetryable config e = true).
    { intros k Hk. destruct (Hfail (Datatypes.S k)) as [e He]; [lia|].
      exists e. unfold attempt in *. simpl in He. by rewrite Hs in He. }
    rewrite (IH (Datatypes.S index) s' ltac:(lia) Hrest).
    unfold again, attempt. simpl. rewrite Hs. simpl. done.
Qed.

Lemma non_retryable_step config source s error s' :
  source s = (Err error, s') →
  isRetryable config error = false →
  let r := retryWithBackoff config source s in
  result r = Err error ∧ invocations r = 1%nat ∧ delays r = [] ∧ final r = s'.
Proof.
  intros Hs Hr. unfold retryWithBackoff.
  by rewrite (retryFrom_not_retryable _ _ _ _ _ _ Hs Hr).
Qed.

(** With [maxAttempts] at most 1 the source is subscribed once and its
    notification is the result. *)
Lemma retryWithBackoff_single config source s :
  maxAttemptsOf config ≤ 1 →
  retryWithBackoff config source s = mkRun (source s).1 1 [] (source s).2.
Proof.
  intros Hmax. unfold retryWithBackoff. rewrite retryFrom_unfold.
  destruct (source s) as [[v|error] s']; simpl; [done|].
  unfold givesUp. by rewrite bool_decide_eq_true_2 by lia.
Qed.

(** The loop leaves the world as its subscriptions made it. *)
Lemma retryFrom_final config source index s :
  final (retryFrom config source index s)
  = stateAfter source (invocations (retryFrom config source index s)) s.
Proof.
  remember (Z.to_nat (maxAttemptsOf config - Z.of_nat index)) as m eqn:Hm.
  revert index s Hm. induction m as [m IH] using lt_wf_ind. intros index s Hm.
  rewrite retryFrom_unfold.
  destruct (source s) as [[v|error] s'] eqn:Hs; simpl; [by rewrite Hs|].
  destruct (givesUp config index error) eqn:Hg; simpl; [by rewrite Hs|].
  rewrite Hs. simpl. unfold givesUp in Hg.
  apply orb_false_elim in Hg as [Hlt _]. apply bool_decide_eq_false in Hlt.
  eapply IH; [|reflexivity]. lia.
Qed.

End RetryFacts.

(** ** The idempotency service, case by case *)
Section IdempotencyFacts.
Context {Value : Type}.
Implicit Types (w : World Value) (operation : Operation (Value := Value))
  (record : IdempotencyRecord Value) (k : string).

Ltac run_service :=
  unfold checkAndStore, call, cacheGet, cacheDelete, cacheSet, cleanupExpired,
    dateNow, emit, mbind, M_bind, mret, M_ret; simpl.

Lemma truthy_Some k : truthy (Some k) = true ↔ k ≠ "".
Proof.
  simpl. rewrite negb_true_iff, bool_decide_eq_false. done.
Qed.

Lemma checkAndStore_falsy key operation w :
  truthy key = false → checkAndStore key operation w = call operation w.
Proof. intros H. unfold checkAndStore. by rewrite H. Qed.

Lemma checkAndStore_hit k operation w record :
  k ≠ "" →
  cache w !! k = Some record →
  now w - timestamp record < ttlMs →
  checkAndStore (Some k) operation w
  = (Ok (response record), emit (CacheGet k) w).
Proof.
  intros Hk Hc Hage. apply truthy_Some in Hk.
  unfold checkAndStore. rewrite Hk. run_service.
  rewrite Hc. simpl. by rewrite bool_decide_eq_true_2.
Qed.

Lemma checkAndStore_absent k operation w :
  k ≠ "" →
  cache w !! k = None →
  checkAndStore (Some k) operation w
  = proceed k operation (cache w) (now w) (log w ++ [CacheGet k]).
Proof.
  intros Hk Hc. apply truthy_Some in Hk.
  unfold checkAndStore. rewrite Hk. run_service.
  rewrite Hc. unfold proceed. simpl.
  by destruct (operation (now w)) as [[v|e] t'].
Qed.

Lemma checkAndStore_expired k operation w record :
  k ≠ "" →
  cache w !! k = Some record →
  ttlMs ≤ now w - timestamp record →
  checkAndStore (Some k) operation w
  = proceed k operation (delete k (cache w)) (now w)
      ((log w ++ [CacheGet k]) ++ [CacheDelete k]).
Proof.
  intros Hk Hc Hage. apply truthy_Some in Hk.
  unfold checkAndStore. rewrite Hk. run_service.
  rewrite Hc. simpl. rewrite bool_decide_eq_false_2 by lia.
  unfold proceed. simpl.
  by destruct (operation (now w)) as [[v|e] t'].
Qed.

Lemma invocationsIn_app (l l' : list Event) :
  invocationsIn (l ++ l') = (invocationsIn l + invocationsIn l')%nat.
Proof. unfold invocationsIn. by rewrite List.filter_app, length_app. Qed.

Lemma storeAccessesIn_app (l l' : list Event) :
  storeAccessesIn (l ++ l') = (storeAccessesIn l + storeAccessesIn l')%nat.
Proof. unfold storeAccessesIn. by rewrite List.filter_app, length_app. Qed.

(** From [await operation()] on, the operation runs once and its outcome
    is the outcome of the call. *)
Lemma proceed_invokes k operation c t l :
  (proceed k operation c t l).1 = (operation t).1
  ∧ invocationsIn (log (proceed k operation c t l).2) = Datatypes.S (invocationsIn l).
Proof.
  unfold proceed. destruct (operation t) as [[v|e] t']; simpl;
    (split; [done|]); unfold invocationsIn;
    rewrite !List.filter_app, !length_app; simpl; lia.
Qed.

(** A rejected operation leaves the cache as it found it. *)
Lemma proceed_failure k operation c t l e t' :
  operation t = (Err e, t') →
  proceed k operation c t l = (Err e, mkWorld c t' (l ++ [Invoked])).
Proof. intros H. unfold proceed. by rewrite H. Qed.

(** A fulfilled operation leaves its result under the key: the sweep that
    follows reads the clock the record was stamped with. *)
Lemma proceed_success k operation c t l v t' :
  operation t = (Ok v, t') →
  (proceed k operation c t l).1 = Ok v
  ∧ cache (proceed k operation c t l).2 !! k = Some (mkRecord k v t').
Proof.
  intros H. unfold proceed. rewrite H. simpl. split; [done|].
  apply map_lookup_filter_Some. split; [apply lookup_insert_eq|].
  unfold sweepable, ttlMs. simpl. lia.
Qed.

Lemma proceed_wellKeyed k operation c t l :
  k ≠ "" →
  (∀ k' r, c !! k' = Some r → k' ≠ "" ∧ key r = k') →
  wellKeyed (proceed k operation c t l).2.
Proof.
  intros Hk Hc k' r. unfold proceed.
  destruct (operation t) as [[v|e] t']; simpl; [|apply Hc].
  rewrite map_lookup_filter_Some. intros [Hl _].
  destruct (decide (k = k')) as [<-|Hne].
  - rewrite lookup_insert_eq in Hl. by inversion Hl.
  - rewrite lookup_insert_ne in Hl by done. by apply Hc.
Qed.

(** A keyed call that returns normally leaves a record with the value it
    returned under the key. *)
Lemma checkAndStore_stores k operation w v w' :
  k ≠ "" →
  checkAndStore (Some k) operation w = (Ok v, w') →
  ∃ record, cache w' !! k = Some record ∧ response record = v.
Proof.
  intros Hk Hcall.
  assert (Hgo : ∀ c l, proceed k operation c (now w) l = (Ok v, w') →
            ∃ record, cache w' !! k = Some record ∧ response record = v).
  { intros c l Hp. destruct (operation (now w)) as [[v'|e] t'] eqn:Hop.
    - destruct (proceed_success k operation c (now w) l v' t' Hop) as [Hres Hrec].
      rewrite Hp in Hres, Hrec. simpl in *. inversion Hres; subst. eauto.
    - rewrite (proceed_failure _ _ _ _ _ _ _ Hop) in Hp. discriminate. }
  destruct (cache w !! k) as [existing|] eqn:Hc.
  - destruct (decide (now w - timestamp existing < ttlMs)) as [Hhit|Hexp].
    + rewrite (checkAndStore_hit _ _ _ _ Hk Hc Hhit) in Hcall.
      inversion Hcall; subst. simpl. eauto.
    + rewrite (checkAndStore_expired _ _ _ _ Hk Hc) in Hcall by lia. eauto.
  - rewrite (checkAndStore_absent _ _ _ Hk Hc) in Hcall. eauto.
Qed.

(** The invariant holds of a new service and is kept by its methods. *)
Lemma wellKeyed_new t l : wellKeyed (mkWorld (Value := Value) ∅ t l).
Proof. intros k r. simpl. by rewrite lookup_empty. Qed.

Lemma clear_wellKeyed w : wellKeyed (clear w).2.
Proof. apply wellKeyed_new. Qed.

Lemma checkAndStore_wellKeyed key operation w :
  wellKeyed w → wellKeyed (checkAndStore key operation w).2.
Proof.
  intros Hw. destruct (truthy key) eqn:Hkey.
  - destruct key as [k|]; [|done]. apply truthy_Some in Hkey.
    destruct (cache w !! k) as [record|] eqn:Hc.
    + destruct (decide (now w - timestamp record < ttlMs)) as [Hage|Hage].
      * rewrite (checkAndStore_hit _ _ _ _ Hkey Hc Hage). apply Hw.
      * rewrite (checkAndStore_expired _ _ _ _ Hkey Hc) by lia.
        apply proceed_wellKeyed; [done|].
        intros k' r Hl. apply lookup_delete_Some in Hl as [_ Hl]. by apply Hw.
    + rewrite (checkAndStore_absent _ _ _ Hkey Hc).
      apply proceed_wellKeyed; [done|apply Hw].
  - rewrite (checkAndStore_falsy _ _ _ Hkey). unfold call.
    destruct (operation (now w)) as [o t']. apply Hw.
Qed.

End IdempotencyFacts.

Lemma alwaysFails_attempt (e : JsError) (k n : nat) :
  attempt (Examples.alwaysFails e) k n = Err e.
Proof. reflexivity. Qed.

(** ** Claims about the retry policy *)

(** C5.  A failure is classified retryable exactly when its [code] is one
    of the configured [retryableErrors] (ECONNREFUSED, ETIMEDOUT and
    ENOTFOUND when none are configured) or its [status] is 503 (service
    unavailable) or 504 (gateway timeout); the two statuses are retryable
    whatever set of codes is configured. *)
Theorem retryable_classification (config : RetryConfig) (error : JsError) :
  let configured :=
    match retryableErrors config with
    | Some codes => codes
    | None => ["ECONNREFUSED"; "ETIMEDOUT"; "ENOTFOUND"]
    end in
  (isRetryable config error = true ↔
     (∃ c, c ∈ configured ∧ code error = JString c)
     ∨ status error = JNumber 503 ∨ status error = JNumber 504)
  ∧ (isRetryable config error = true ↔
     (∃ c, c ∈ retryableErrorsOf config ∧ code error = JString c)
     ∨ status error = JNumber 503 ∨ status error = JNumber 504)
  ∧ (status error = JNumber 503 ∨ status error = JNumber 504 →
     ∀ codes, isRetryable
                (mkConfig (maxAttempts config) (delayMs config)
                   (backoffMultiplier config) (Some codes)) error = true).
Proof.
  intros configured.
  assert (Hset : retryableErrorsOf config = configured).
  { subst configured. unfold retryableErrorsOf. by destruct (retryableErrors config). }
  split; [rewrite <- Hset; apply isRetryable_iff|].
  split; [apply isRetryable_iff|].
  intros H codes. apply isRetryable_iff. by right.
Qed.

(** With only EPIPE configured, a broken pipe is retryable, a refused
    connection no longer is, and a 503 still is with no code configured. *)
Lemma retryable_classification_witness :
  isRetryable (mkConfig None None None (Some ["EPIPE"])) Examples.brokenPipe = true
  ∧ isRetryable (mkConfig None None None (Some ["EPIPE"])) Examples.refused = false
  ∧ isRetryable (mkConfig None None None (Some [])) Examples.unavailable = true.
Proof.
  split; [|split].
  - apply (proj1 (retryable_classification
                    (mkConfig None None None (Some ["EPIPE"])) Examples.brokenPipe)).
    left. exists "EPIPE". split; [apply list_elem_of_here|reflexivity].
  - apply not_true_is_false. intros Hr.
    apply (proj1 (retryable_classification
                    (mkConfig None None None (Some ["EPIPE"])) Examples.refused))
      in Hr.
    destruct Hr as [(c & Hc & Hcode)|[Hs|Hs]].
    + apply list_elem_of_singleton in Hc. subst c. discriminate Hcode.
    + discriminate Hs.
    + discriminate Hs.
  - apply (proj2 (proj2 (retryable_classification emptyConfig Examples.unavailable))).
    left. reflexivity.
Defined.

(** C7.  When the first attempt fails with a failure that is not
    retryable, the operation is invoked exactly once, no delay is
    scheduled, and that failure is what the caller gets, whatever
    [maxAttempts] is. *)
Theorem non_retryable_fails_fast {S T : Type} (config : RetryConfig)
    (source : Observable (S := S) (T := T)) (s s' : S) (error : JsError) :
  source s = (Err error, s') →
  isRetryable config error = false →
  let r := retryWithBackoff config source s in
  invocations r = 1%nat ∧ delays r = [] ∧ result r = Err error ∧ final r = s'.
Proof.
  intros Hs Hr r.
  destruct (non_retryable_step config source s error s' Hs Hr) as (? & ? & ? & ?).
  done.
Qed.

Lemma non_retryable_fails_fast_witness :
  let r := retryWithBackoff (Examples.attempts 1000)
             (Examples.alwaysFails Examples.badRequest) 0%nat in
  invocations r = 1%nat ∧ delays r = [] ∧ result r = Err Examples.badRequest
  ∧ final r = 1%nat.
Proof.
  apply (non_retryable_fails_fast (Examples.attempts 1000)
           (Examples.alwaysFails Examples.badRequest) 0%nat 1%nat
           Examples.badRequest); reflexivity.
Defined.

(** C4, as stated, fails for [maxAttempts = 0]: the source is subscribed
    before the attempt number is ever compared with [maxAttempts], so one
    invocation occurs, not zero. *)
Lemma retry_exhaustion_counterexample :
  let config := Examples.attempts 0 in
  let r := retryWithBackoff config (Examples.alwaysFails Examples.refused) 0%nat in
  maxAttemptsOf config = 0
  ∧ (∀ k, attempt (Examples.alwaysFails Examples.refused) k 0%nat
          = Err Examples.refused)
  ∧ code Examples.refused = JString "ECONNREFUSED"
  ∧ "ECONNREFUSED" ∈ retryableErrorsOf config
  ∧ invocations r = 1%nat
  ∧ invocations r ≠ Z.to_nat 0.
Proof.
  repeat split; try reflexivity.
  - apply list_elem_of_In. left. reflexivity.
  - discriminate.
Qed.

(** C4 (amended).  For a policy with [maxAttempts = n] and [n ≥ 1], if
    every attempt fails with a code in [retryableErrors], the operation is
    invoked exactly [n] times, the delay before attempt [k + 1] is
    [delayMs * backoffMultiplier ^ (k - 1)], and the failure handed to the
    caller is the one of attempt [n]. *)
Theorem retry_exhaustion {S T : Type} (config : RetryConfig)
    (source : Observable (S := S) (T := T)) (s : S) (n : Z) :
  maxAttemptsOf config = n →
  1 ≤ n →
  (∀ k, (k < Z.to_nat n)%nat →
     ∃ error c, attempt source k s = Err error
                ∧ code error = JString c ∧ c ∈ retryableErrorsOf config) →
  let r := retryWithBackoff config source s in
  invocations r = Z.to_nat n
  ∧ length (delays r) = (Z.to_nat n - 1)%nat
  ∧ (∀ k, (1 ≤ k < Z.to_nat n)%nat →
       delays r !! (k - 1)%nat =
       Some (delayMsOf config * backoffMultiplierOf config ^ (Z.of_nat k - 1)))
  ∧ result r = attempt source (Z.to_nat n - 1) s.
Proof.
  intros Hmax Hn Hfail r.
  assert (Hr : r = mkRun (attempt source (Z.to_nat n - 1) s) (Z.to_nat n)
                     (delayFor config <$> seq 0 (Z.to_nat n - 1))
                     (stateAfter source (Z.to_nat n) s)).
  { subst r. unfold retryWithBackoff.
    rewrite (retryFrom_exhaust config source (Z.to_nat n)) with (m := (Z.to_nat n - 1)%nat).
    - f_equal; f_equal; lia.
    - lia.
    - lia.
    - intros k Hk. destruct (Hfail k) as (error & c & Ha & Hc & Hin); [lia|].
      exists error. split; [done|]. apply isRetryable_iff. left. by exists c. }
  rewrite Hr. simpl. repeat split.
  - by rewrite length_fmap, length_seq.
  - intros k Hk. rewrite list_lookup_fmap, lookup_seq_lt by lia. simpl.
    unfold delayFor. do 3 f_equal. lia.
Qed.

Lemma retry_exhaustion_witness :
  let r := retryWithBackoff (mkConfig (Some 3) (Some 250) (Some 4) None)
             (Examples.alwaysFails Examples.refused) 0%nat in
  invocations r = 3%nat
  ∧ length (delays r) = 2%nat
  ∧ (∀ k, (1 ≤ k < 3)%nat →
       delays r !! (k - 1)%nat = Some (250 * 4 ^ (Z.of_nat k - 1)))
  ∧ result r = Err Examples.refused.
Proof.
  apply (retry_exhaustion (mkConfig (Some 3) (Some 250) (Some 4) None)
           (Examples.alwaysFails Examples.refused) 0%nat 3).
  - reflexivity.
  - lia.
  - intros k Hk. exists Examples.refused, "ECONNREFUSED".
    split; [|split; [reflexivity|]].
    + apply alwaysFails_attempt.
    + apply list_elem_of_In. left. reflexivity.
Defined.

(** ** Claims about the idempotency service *)

(** C3.  When a key is used a second time while the record the first call
    left for it is younger than the 24 hours of [ttlMs], the second call
    does not invoke its operation and returns the result of the first
    call, whatever operation (payload) the second call carries; the store
    is only read. *)
Theorem idempotency_replay {Value : Type} (w0 w1 w2 : World Value) (k : string)
    (op1 op2 : Operation) (r1 : Value) (record : IdempotencyRecord Value) :
  wellKeyed w0 →
  checkAndStore (Some k) op1 w0 = (Ok r1, w1) →
  cache w1 !! k = Some record →
  cache w2 !! k = Some record →
  now w2 - timestamp record < ttlMs →
  checkAndStore (Some k) op2 w2 = (Ok r1, emit (CacheGet k) w2)
  ∧ response record = r1
  ∧ invocationsIn (log (checkAndStore (Some k) op2 w2).2) = invocationsIn (log w2)
  ∧ cache (checkAndStore (Some k) op2 w2).2 = cache w2.
Proof.
  intros Hw0 Hfirst Hc1 Hc2 Hage.
  assert (Hw1 : wellKeyed w1).
  { pose proof (checkAndStore_wellKeyed (Some k) op1 w0 Hw0) as H.
    by rewrite Hfirst in H. }
  destruct (Hw1 k record Hc1) as [Hk _].
  assert (Hr : response record = r1).
  { destruct (cache w0 !! k) as [existing|] eqn:Hc0.
    - destruct (decide (now w0 - timestamp existing < ttlMs)) as [Hhit|Hexp].
      + rewrite (checkAndStore_hit _ _ _ _ Hk Hc0 Hhit) in Hfirst.
        inversion Hfirst; subst. simpl in Hc1. congruence.
      + rewrite (checkAndStore_expired _ _ _ _ Hk Hc0) in Hfirst by lia.
        destruct (op1 (now w0)) as [[v|e] t'] eqn:Hop.
        * destruct (proceed_success k op1 (delete k (cache w0)) (now w0)
                      ((log w0 ++ [CacheGet k]) ++ [CacheDelete k]) v t' Hop)
            as [Hres Hrec].
          rewrite Hfirst in Hres, Hrec. simpl in *.
          inversion Hres; subst. rewrite Hc1 in Hrec. by inversion Hrec.
        * rewrite (proceed_failure _ _ _ _ _ _ _ Hop) in Hfirst. discriminate.
    - rewrite (checkAndStore_absent _ _ _ Hk Hc0) in Hfirst.
      destruct (op1 (now w0)) as [[v|e] t'] eqn:Hop.
      + destruct (proceed_success k op1 (cache w0) (now w0)
                    (log w0 ++ [CacheGet k]) v t' Hop) as [Hres Hrec].
        rewrite Hfirst in Hres, Hrec. simpl in *.
        inversion Hres; subst. rewrite Hc1 in Hrec. by inversion Hrec.
      + rewrite (proceed_failure _ _ _ _ _ _ _ Hop) in Hfirst. discriminate. }
  rewrite (checkAndStore_hit _ op2 _ _ Hk Hc2 Hage). simpl.
  rewrite Hr, invocationsIn_app. simpl. repeat split. unfold invocationsIn. simpl. lia.
Qed.

Lemma idempotency_replay_witness :
  let w1 := (checkAndStore (Some "submit-42") (Examples.succeeds "SUBMITTED")
               (Examples.fresh 1000)).2 in
  let w2 := mkWorld (cache w1) (now w1 + 5000) (log w1) in
  checkAndStore (Some "submit-42") (Examples.fails Examples.badRequest) w2
  = (Ok "SUBMITTED", emit (CacheGet "submit-42") w2).
Proof.
  intros w1 w2.
  apply (idempotency_replay (Examples.fresh 1000) w1 w2 "submit-42"
           (Examples.succeeds "SUBMITTED") (Examples.fails Examples.badRequest)
           "SUBMITTED" (mkRecord "submit-42" "SUBMITTED" 1005)).
  - apply wellKeyed_new.
  - reflexivity.
  - reflexivity.
  - reflexivity.
  - vm_compute. reflexivity.
Defined.

(** C10.  A call whose key is the empty string is a call without a key:
    the operation is run directly, once, and the store is neither read
    nor written. *)
Theorem empty_key_passthrough {Value : Type} (operation : Operation)
    (w : World Value) :
  let r := checkAndStore (Some "") operation w in
  r = checkAndStore None operation w
  ∧ r.1 = (operation (now w)).1
  ∧ cache r.2 = cache w
  ∧ log r.2 = (log w ++ [Invoked])%list
  ∧ invocationsIn (log r.2) = Datatypes.S (invocationsIn (log w))
  ∧ storeAccessesIn (log r.2) = storeAccessesIn (log w).
Proof.
  intros r. subst r.
  rewrite (checkAndStore_falsy (Some "")), (checkAndStore_falsy None) by done.
  unfold call. destruct (operation (now w)) as [o t']. simpl.
  rewrite invocationsIn_app, storeAccessesIn_app. simpl.
  unfold invocationsIn, storeAccessesIn. simpl. repeat split; lia.
Qed.

(** C6, as stated, fails when the store holds an expired record for the
    key: the call deletes that record before it runs the operation, so the
    store is not what it was although the operation failed.  Here the
    record is 25 hours old. *)
Lemma failure_not_stored_counterexample :
  let w := Examples.stored (1000 + 25 * 60 * 60 * 1000) in
  let r := checkAndStore (Some "submit-42") (Examples.fails Examples.refused) w in
  r.1 = Err Examples.refused
  ∧ cache w !! "submit-42" = Some Examples.submitted
  ∧ cache r.2 !! "submit-42" = None
  ∧ cache r.2 ≠ cache w.
Proof.
  repeat split; try reflexivity.
  intros H. apply (f_equal (λ m, m !! "submit-42")) in H. discriminate H.
Qed.

(** C6 (amended).  When the operation of a keyed call fails, the failure
    reaches the caller and nothing is stored: afterwards the store holds no
    record for the key and every other record is as before (the store is
    unchanged altogether unless it held an expired record for the key,
    which the call has removed); a later call with the same key runs its
    operation, once, and gets the outcome of that run. *)
Theorem failure_not_stored {Value : Type} (w : World Value) (k : string)
    (operation : Operation) (e : JsError) (t' : Z) :
  k ≠ "" →
  (∀ record, cache w !! k = Some record → ttlMs ≤ now w - timestamp record) →
  operation (now w) = (Err e, t') →
  let r := checkAndStore (Some k) operation w in
  r.1 = Err e
  ∧ cache r.2 = delete k (cache w)
  ∧ (cache w !! k = None → cache r.2 = cache w)
  ∧ ∀ (w2 : World Value) (op2 : Operation),
      cache w2 = cache r.2 →
      let r2 := checkAndStore (Some k) op2 w2 in
      r2.1 = (op2 (now w2)).1
      ∧ invocationsIn (log r2.2) = Datatypes.S (invocationsIn (log w2)).
Proof.
  intros Hk Hold Hop r.
  assert (Hr : r.1 = Err e ∧ cache r.2 = delete k (cache w)).
  { subst r. destruct (cache w !! k) as [record|] eqn:Hc.
    - rewrite (checkAndStore_expired _ _ _ _ Hk Hc (Hold _ eq_refl)).
      by rewrite (proceed_failure _ _ _ _ _ _ _ Hop).
    - rewrite (checkAndStore_absent _ _ _ Hk Hc).
      rewrite (proceed_failure _ _ _ _ _ _ _ Hop). simpl.
      by rewrite delete_id. }
  destruct Hr as [Hres Hcache]. split; [done|]. split; [done|]. split.
  - intros Hnone. by rewrite Hcache, delete_id.
  - intros w2 op2 Hsame r2. subst r2.
    rewrite (checkAndStore_absent _ _ _ Hk)
      by (rewrite Hsame, Hcache; apply lookup_delete_eq).
    destruct (proceed_invokes k op2 (cache w2) (now w2) (log w2 ++ [CacheGet k]))
      as [-> ->].
    split; [done|]. rewrite invocationsIn_app. unfold invocationsIn. simpl. lia.
Qed.

Lemma failure_not_stored_witness :
  let r := checkAndStore (Some "submit-42") (Examples.fails Examples.refused)
             (Examples.fresh 1000) in
  r.1 = Err Examples.refused ∧ cache r.2 = cache (Examples.fresh 1000).
Proof.
  destruct (failure_not_stored (Examples.fresh 1000) "submit-42"
              (Examples.fails Examples.refused) Examples.refused 1005)
    as (Hres & _ & Hsame & _).
  - discriminate.
  - intros record H. discriminate H.
  - reflexivity.
  - split; [exact Hres | apply Hsame; reflexivity].
Defined.

(** C9.  A cached response is only returned for a record younger than the
    TTL: from an age of exactly [ttlMs] on, the lookup deletes the record
    and runs the operation, and a call that did not run the operation found
    a record of age below [ttlMs]; [cleanupExpired], for its part, keeps a
    record of age exactly [ttlMs] and deletes only older ones. *)
Theorem ttl_boundary {Value : Type} (w : World Value) (k : string)
    (operation : Operation) (record : IdempotencyRecord Value) :
  wellKeyed w →
  cache w !! k = Some record →
  let r := checkAndStore (Some k) operation w in
  (ttlMs ≤ now w - timestamp record →
     r = proceed k operation (delete k (cache w)) (now w)
           ((log w ++ [CacheGet k]) ++ [CacheDelete k])
     ∧ r.1 = (operation (now w)).1
     ∧ invocationsIn (log r.2) = Datatypes.S (invocationsIn (log w)))
  ∧ (invocationsIn (log r.2) = invocationsIn (log w) →
     now w - timestamp record < ttlMs ∧ r.1 = Ok (response record))
  ∧ (now w - timestamp record = ttlMs →
     cache (cleanupExpired w).2 !! k = Some record)
  ∧ (ttlMs < now w - timestamp record →
     cache (cleanupExpired w).2 !! k = None).
Proof.
  intros Hw Hc r. destruct (Hw k record Hc) as [Hk _].
  assert (Hexp : ttlMs ≤ now w - timestamp record →
     r = proceed k operation (delete k (cache w)) (now w)
           ((log w ++ [CacheGet k]) ++ [CacheDelete k])
     ∧ r.1 = (operation (now w)).1
     ∧ invocationsIn (log r.2) = Datatypes.S (invocationsIn (log w))).
  { intros Hage. subst r. rewrite (checkAndStore_expired _ _ _ _ Hk Hc Hage).
    split; [done|].
    destruct (proceed_invokes k operation (delete k (cache w)) (now w)
                ((log w ++ [CacheGet k]) ++ [CacheDelete k])) as [-> ->].
    split; [done|]. rewrite !invocationsIn_app. unfold invocationsIn. simpl. lia. }
  repeat split.
  - by apply Hexp.
  - by apply Hexp.
  - by apply Hexp.
  - destruct (decide (now w - timestamp record < ttlMs)) as [|Hge]; [done|].
    destruct Hexp as (_ & _ & Hinv); lia.
  - destruct (decide (now w - timestamp record < ttlMs)) as [Hlt|Hge].
    + subst r. by rewrite (checkAndStore_hit _ _ _ _ Hk Hc Hlt).
    + destruct Hexp as (_ & _ & Hinv); lia.
  - intros Hage. simpl. apply map_lookup_filter_Some. split; [done|].
    unfold sweepable. simpl. lia.
  - intros Hage. simpl. apply map_lookup_filter_None. right.
    intros x Hx. rewrite Hc in Hx. inversion Hx; subst.
    unfold sweepable. simpl. intros Hn. by apply Hn.
Qed.

Lemma ttl_boundary_witness :
  let w := Examples.stored (1000 + ttlMs) in
  let r := checkAndStore (Some "submit-42") (Examples.succeeds "AGAIN") w in
  r.1 = Ok "AGAIN"
  ∧ cache (cleanupExpired w).2 !! "submit-42" = Some Examples.submitted.
Proof.
  destruct (ttl_boundary (Examples.stored (1000 + ttlMs)) "submit-42"
              (Examples.succeeds "AGAIN") Examples.submitted)
    as (Hexp & _ & Hkeep & _).
  - intros k r H. simpl in H. apply lookup_singleton_Some in H as [<- <-]. by split.
  - reflexivity.
  - split.
    + destruct Hexp as (_ & Hres & _); [vm_compute; discriminate|exact Hres].
    + apply Hkeep. reflexivity.
Defined.

(** ** Claims about the gateway *)
Section GatewayFacts.
Context {Dto Query Value : Type} `{!EventsService.Events Dto Query Value}
  `{!EventsRoutes.Moderation Dto Dto Value} `{!AuthRoutes.Auth Value}.
Context (net : nat → Gateway.Link) (wire : JsError → JsError).
Implicit Types (sys : Gateway.System Dto Query Value)
  (msg : Gateway.Message Dto Query).

(** One subscription to [send(...)], whatever becomes of it, gives its
    message to the client. *)
Lemma send_once due msg sys :
  Gateway.sent (Gateway.timeout due (Gateway.send net wire msg) sys).2
  = (Gateway.sent sys ++ [msg])%list.
Proof.
  unfold Gateway.timeout, Gateway.send.
  destruct (net (length (Gateway.sent sys))) as [rtt|e after].
  - destruct (Gateway.dispatch msg (Gateway.service sys)) as [o w'].
    by case_bool_decide.
  - by case_bool_decide.
Qed.

(** Every subscription to [send(...)], timed out or not, delivered or
    not, gives its message to the client. *)
Lemma send_sent due msg (n : nat) sys :
  Gateway.sent (stateAfter (Gateway.timeout due (Gateway.send net wire msg)) n sys)
  = (Gateway.sent sys ++ replicate n msg)%list.
Proof.
  revert sys. induction n as [|n IH]; intros sys; simpl.
  - by rewrite app_nil_r.
  - rewrite IH, send_once. by rewrite <- app_assoc.
Qed.

Lemma sent_by_retry config due msg sys :
  let r := retryWithBackoff config
             (Gateway.timeout due (Gateway.send net wire msg)) sys in
  Gateway.sent (final r) = (Gateway.sent sys ++ replicate (invocations r) msg)%list.
Proof.
  intros r. subst r. unfold retryWithBackoff.
  by rewrite retryFrom_final, send_sent.
Qed.

(** A retried pipe subscribes at least once. *)
Lemma retry_invoked {S T : Type} config (source : Observable (S := S) (T := T)) s :
  invocations (retryWithBackoff config source s) ≠ 0%nat.
Proof.
  unfold retryWithBackoff. rewrite retryFrom_unfold.
  destruct (source s) as [[v|e] s']; simpl; [done|].
  destruct (givesUp config 0 e); simpl; [done|].
  destruct (retryFrom _ _ _ _); simpl. lia.
Qed.

(** Each handler sends one message, as often as its pipe subscribes, and
    that message carries the [correlationId] of the request. *)
Lemma handleGuarded_sent (g : Gateway.Guarded Dto Query) user req sys :
  ∃ msg, Gateway.correlationOf msg = correlationId req
         ∧ Gateway.sent (final (Gateway.handleGuarded net wire g user req sys))
           = (Gateway.sent sys ++
              replicate (invocations (Gateway.handleGuarded net wire g user req sys))
                msg)%list
         ∧ invocations (Gateway.handleGuarded net wire g user req sys) ≠ 0%nat.
Proof.
  destruct g; simpl;
    (eexists; split; [|split; [apply sent_by_retry|apply retry_invoked]]);
    reflexivity.
Qed.

Lemma correlationField_with (dto : gmap string JsValue) req :
  Gateway.correlationField (AuthRoutes.withCorrelation dto req) = correlationId req.
Proof.
  unfold Gateway.correlationField, AuthRoutes.withCorrelation.
  rewrite lookup_insert_eq. by destruct (correlationId req).
Qed.

Lemma handlePublic_sent (p : Gateway.Public) req sys :
  ∃ msg : Gateway.Message Dto Query,
    Gateway.correlationOf msg = correlationId req
    ∧ Gateway.sent (final (Gateway.handlePublic net wire p req sys))
      = (Gateway.sent sys ++
         replicate (invocations (Gateway.handlePublic net wire p req sys)) msg)%list
    ∧ invocations (Gateway.handlePublic net wire p req sys) ≠ 0%nat.
Proof.
  destruct p; simpl;
    (eexists; split; [|split; [apply sent_by_retry|apply retry_invoked]]);
    simpl; apply correlationField_with.
Qed.

End GatewayFacts.




(** C1, as stated, fails: the idempotency check sits in the events-service,
    behind the TCP client, so the gateway has to make the remote call to
    learn that the key has a stored record.  Here the record of
    ["submit-42"] is five seconds old. *)
Lemma cache_hit_remote_call_counterexample :
  let sys : Gateway.System string string string :=
    Gateway.mkSystem (Examples.stored 6000) [] in
  let r := Gateway.create (Examples.steady 3) id "retreat" Examples.alice
             (Examples.inbound "abc-123") (Some "submit-42") sys in
  cache (Gateway.service sys) !! "submit-42" = Some Examples.submitted
  ∧ now (Gateway.service sys) - timestamp Examples.submitted < ttlMs
  ∧ result r = Ok "SUBMITTED"
  ∧ invocations r = 1%nat
  ∧ length (Gateway.sent (final r)) = 1%nat
  ∧ length (Gateway.sent (final r)) ≠ length (Gateway.sent sys).
Proof. repeat split; try reflexivity. discriminate. Qed.

(** C1 (amended).  When a request for a keyed mutating operation (create,
    submit, approve or reject an event) carries an idempotency key for
    which the events-service holds an unexpired record, the gateway still
    makes one remote call, under its 10 s timeout and its single-attempt
    retry policy, and the underlying operation is not invoked.  If the
    call reaches the events-service, the service answers from its store,
    and the gateway returns that stored result if the reply arrives within
    the timeout, a timeout failure otherwise; if the connection fails, the
    service is untouched and the gateway returns the connection failure
    (or the timeout failure, if that took more than 10 s). *)
Theorem cache_hit_through_gateway {Dto Query Value : Type}
    `{!EventsService.Events Dto Query Value}
    `{!EventsRoutes.Moderation Dto Dto Value} `{!AuthRoutes.Auth Value}
    (net : nat → Gateway.Link) (wire : JsError → JsError)
    (g : Gateway.Guarded Dto Query) (user : Gateway.User) (req : Request)
    (k : string) (sys : Gateway.System Dto Query Value)
    (record : IdempotencyRecord Value) :
  Gateway.keyed g = true →
  headers req !! "idempotency-key" = Some k →
  wellKeyed (Gateway.service sys) →
  cache (Gateway.service sys) !! k = Some record →
  now (Gateway.service sys) - timestamp record < ttlMs →
  let r := Gateway.handleGuarded net wire g user req sys in
  invocations r = 1%nat
  ∧ delays r = []
  ∧ (∃ msg, Gateway.sent (final r) = (Gateway.sent sys ++ [msg])%list
            ∧ Gateway.idempotencyKeyOf msg = Some k
            ∧ Gateway.correlationOf msg = correlationId req)
  ∧ invocationsIn (log (Gateway.service (final r)))
    = invocationsIn (log (Gateway.service sys))
  ∧ match net (length (Gateway.sent sys)) with
    | Gateway.Delivered rtt =>
        Gateway.service (final r) = emit (CacheGet k) (Gateway.service sys)
        ∧ Gateway.firstValueFrom r
          = (if bool_decide (10000 < rtt) then Err Gateway.TimeoutError
             else Ok (response record))
    | Gateway.Failed error after =>
        Gateway.service (final r) = Gateway.service sys
        ∧ Gateway.firstValueFrom r
          = (if bool_decide (10000 < after) then Err Gateway.TimeoutError
             else Err error)
    end.
Proof.
  intros Hkeyed Hkey Hw Hc Hage r. destruct (Hw k record Hc) as [Hk _].
  assert (Hlog : invocationsIn (log (Gateway.service sys) ++ [CacheGet k])
                 = invocationsIn (log (Gateway.service sys))).
  { rewrite invocationsIn_app. unfold invocationsIn. simpl. lia. }
  subst r. unfold Gateway.handleGuarded. rewrite Hkey.
  destruct g; try discriminate Hkeyed;
    unfold Gateway.create, Gateway.submit, Gateway.approve, Gateway.reject;
    (rewrite retryWithBackoff_single by done);
    unfold Gateway.timeout, Gateway.send, Gateway.dispatch, EventsService.create,
      EventsRoutes.submit, EventsRoutes.approve, EventsRoutes.reject;
    simpl;
    (destruct (net (length (Gateway.sent sys))) as [rtt|error after];
     [ rewrite (checkAndStore_hit _ _ _ _ Hk Hc Hage); simpl;
       replace (rtt + (now (Gateway.service sys) - now (Gateway.service sys)))
         with rtt by lia;
       case_bool_decide; simpl; rewrite Hlog; eauto 10
     | case_bool_decide; simpl; eauto 10 ]).
Qed.

(** A submit that repeats the key ["submit-42"] five seconds after its
    result was stored. *)
Lemma cache_hit_through_gateway_witness :
  let sys : Gateway.System string string string :=
    Gateway.mkSystem (Examples.stored 6000) [] in
  let r := Gateway.submit (Examples.steady 3) id "event-1" Examples.alice
             (Examples.repeated "submit-42") (Some "submit-42") sys in
  invocations r = 1%nat
  ∧ Gateway.service (final r) = emit (CacheGet "submit-42") (Gateway.service sys)
  ∧ Gateway.firstValueFrom r = Ok "SUBMITTED".
Proof.
  intros sys.
  destruct (cache_hit_through_gateway (Examples.steady 3) id
              (Gateway.PostSubmit "event-1") Examples.alice
              (Examples.repeated "submit-42") "submit-42" sys Examples.submitted)
    as (Hinv & _ & _ & _ & Hsvc & Hres).
  - reflexivity.
  - reflexivity.
  - intros k r H. simpl in H. apply lookup_singleton_Some in H as [<- <-]. by split.
  - reflexivity.
  - vm_compute. reflexivity.
  - split; [exact Hinv | split; [exact Hsvc | exact Hres]].
Defined.

(** C8, as stated, fails for a request the guard of its route refuses:
    guards run before interceptors, so the request below, although it
    brings a correlation id, is answered with no [X-Correlation-ID] header
    and nothing is sent downstream. *)
Lemma correlation_refused_counterexample :
  let sys : Gateway.System string string string :=
    Gateway.mkSystem (Examples.fresh 1000) [] in
  let request := Examples.inbound "abc-123" in
  let served := Gateway.serve (Examples.steady 3) id Examples.bearer "6f1c2a0e-uuid"
                  (Gateway.Behind (Gateway.GetEvents "page=1")) request
                  Examples.blank sys in
  resolve "6f1c2a0e-uuid" request = "abc-123"
  ∧ Examples.bearer request = None
  ∧ served.1 = None
  ∧ responseHeaders served.2 !! "X-Correlation-ID" = None.
Proof. repeat split; reflexivity. Qed.

(** C8 (amended).  For every inbound request that reaches its route
    handler (any request to an open route, and any request to a guarded
    route that the guard admits), whichever of the eleven routes it is for,
    the correlation id resolved for it (the inbound [x-correlation-id]
    header if it is a non-empty string, a fresh UUID otherwise) is the
    [correlationId] of every message the handler sends downstream, and the
    value of the [X-Correlation-ID] header of the response; at least one
    message is sent. *)
Theorem correlation_echo {Dto Query Value : Type}
    `{!EventsService.Events Dto Query Value}
    `{!EventsRoutes.Moderation Dto Dto Value} `{!AuthRoutes.Auth Value}
    (net : nat → Gateway.Link) (wire : JsError → JsError)
    (guard : Request → option Gateway.User)
    (uuid : string) (route : Gateway.Route Dto Query) (request : Request)
    (response : Response) (sys : Gateway.System Dto Query Value) :
  (∀ g, route = Gateway.Behind g → is_Some (guard request)) →
  let id := resolve uuid request in
  match headers request !! "x-correlation-id" with
  | Some v => id = if bool_decide (v = "") then uuid else v
  | None => id = uuid
  end
  ∧ ∃ r res,
      Gateway.serve net wire guard uuid route request response sys = (Some r, res)
      ∧ responseHeaders res !! "X-Correlation-ID" = Some id
      ∧ (∃ msgs, Gateway.sent (final r) = (Gateway.sent sys ++ msgs)%list
                 ∧ msgs ≠ []
                 ∧ Forall (λ msg, Gateway.correlationOf msg = Some id) msgs).
Proof.
  intros Hadmit id. split.
  - subst id. unfold resolve.
    destruct (headers request !! "x-correlation-id") as [v|]; simpl; [|done].
    by case_bool_decide.
  - unfold Gateway.serve, intercept. fold id.
    destruct route as [g|p].
    + destruct (Hadmit g eq_refl) as [user ->].
      eexists _, _. split; [reflexivity|]. simpl.
      split; [apply lookup_insert_eq|].
      destruct (handleGuarded_sent net wire g user
                  (mkRequest (headers request) (Some id)) sys)
        as (msg & Hid & Hsent & Hinv).
      exists (replicate
                (invocations (Gateway.handleGuarded net wire g user
                                (mkRequest (headers request) (Some id)) sys)) msg).
      split; [exact Hsent|]. split; [|by apply Forall_replicate].
      intros Hnil. apply (f_equal length) in Hnil.
      rewrite length_replicate in Hnil. simpl in Hnil. done.
    + eexists _, _. split; [reflexivity|]. simpl.
      split; [apply lookup_insert_eq|].
      destruct (handlePublic_sent net wire p
                  (mkRequest (headers request) (Some id)) sys)
        as (msg & Hid & Hsent & Hinv).
      exists (replicate
                (invocations (Gateway.handlePublic net wire p
                                (mkRequest (headers request) (Some id)) sys)) msg).
      split; [exact Hsent|]. split; [|by apply Forall_replicate].
      intros Hnil. apply (f_equal length) in Hnil.
      rewrite length_replicate in Hnil. simpl in Hnil. done.
Qed.

(** An approval by a signed-in user, without a correlation header, on a
    network that refuses the connection: the generated id is on the
    response and on the one message the gateway tried to send. *)
Lemma correlation_echo_witness :
  ∃ r res,
    Gateway.serve (Examples.flaky 1 3) id Examples.bearer "6f1c2a0e-uuid"
      (Gateway.Behind (Gateway.PostApprove "event-1")) (Examples.signedIn "user-7")
      Examples.blank
      (Gateway.mkSystem (Value := string) (Examples.fresh 1000) [])
    = (Some r, res)
    ∧ responseHeaders res !! "X-Correlation-ID" = Some "6f1c2a0e-uuid"
    ∧ Gateway.sent (final r)
      = [Gateway.EventsApprove "event-1" "org-1" "USER" "user-7"
           (Some "6f1c2a0e-uuid") None].
Proof.
  destruct (correlation_echo (Examples.flaky 1 3) id Examples.bearer "6f1c2a0e-uuid"
              (Gateway.Behind (Gateway.PostApprove "event-1"))
              (Examples.signedIn "user-7") Examples.blank
              (Gateway.mkSystem (Value := string) (Examples.fresh 1000) []))
    as (_ & r & res & Hserve & Hheader & _).
  - intros g Hg. eexists. reflexivity.
  - exists r, res. split; [exact Hserve|]. split; [exact Hheader|].
    injection Hserve as <- _. reflexivity.
Defined.

(** ** The scenarios of the specification *)

(** Two retryable failures, then success: three invocations, delays of
    1000 ms and 2000 ms, the value of the third attempt. *)
Example scenario_retry_then_success :
  let source : Observable (S := nat) (T := string) :=
    λ n, (if (n <? 2)%nat then Err Examples.refused else Ok "events", Datatypes.S n) in
  retryWithBackoff (mkConfig (Some 3) (Some 1000) (Some 2) None) source 0%nat
  = mkRun (Ok "events") 3 [1000; 2000] 3%nat.
Proof. reflexivity. Qed.

(** A key recorded 25 hours ago is expired: the operation runs again and a
    new record replaces the old one. *)
Example scenario_expired_key :
  let w := Examples.stored (1000 + 25 * 60 * 60 * 1000) in
  let r := checkAndStore (Some "submit-42") (Examples.succeeds "SUBMITTED") w in
  r.1 = Ok "SUBMITTED"
  ∧ log r.2 = [CacheGet "submit-42"; CacheDelete "submit-42"; Invoked;
               CacheSet "submit-42"; Cleanup]
  ∧ cache r.2 !! "submit-42"
    = Some (mkRecord "submit-42" "SUBMITTED" (1000 + 25 * 60 * 60 * 1000 + 5)).
Proof. repeat split; reflexivity. Qed.

(** A key recorded 23 hours ago is still good: the stored response is
    returned and the operation does not run. *)
Example scenario_key_within_a_day :
  let w := Examples.stored (1000 + 23 * 60 * 60 * 1000) in
  let r := checkAndStore (Some "submit-42") (Examples.succeeds "AGAIN") w in
  r.1 = Ok "SUBMITTED" ∧ log r.2 = [CacheGet "submit-42"].
Proof. split; reflexivity. Qed.

(** [maxAttempts = 1]: one invocation and no delay, retryable failure or
    not. *)
Example scenario_single_attempt :
  retryWithBackoff (Examples.attempts 1) (Examples.alwaysFails Examples.refused) 0%nat
  = mkRun (Err Examples.refused) 1 [] 1%nat
  ∧ retryWithBackoff (Examples.attempts 1)
      (Examples.alwaysFails Examples.badRequest) 0%nat
    = mkRun (Err Examples.badRequest) 1 [] 1%nat.
Proof. split; reflexivity. Qed.

(** No correlation header: the generated identifier goes downstream and
    onto the response. *)
Example scenario_generated_correlation :
  let sys : Gateway.System string string string :=
    Gateway.mkSystem (Examples.fresh 1000) [] in
  let served := Gateway.serve (Examples.steady 3) id Examples.bearer "6f1c2a0e-uuid"
                  (Gateway.Open (Gateway.PostSignup {[ "email" := JString "a@b.io" ]}))
                  Examples.anonymous Examples.blank sys in
  (λ r, Gateway.correlationOf <$> Gateway.sent (final r)) <$> served.1
  = Some [Some "6f1c2a0e-uuid"]
  ∧ responseHeaders served.2 !! "X-Correlation-ID" = Some "6f1c2a0e-uuid".
Proof. split; reflexivity. Qed.

(** * Further properties of the retry policy *)
Section RetryShape.
Context {S T : Type}.
Implicit Types (config : RetryConfig) (source : Observable (S := S) (T := T)).

(** The shape of a run started at error number [index]: the subscriptions
    stay within what [maxAttempts] leaves, every delay is the one computed
    for its error number, and the notification delivered is the one of the
    last subscription. *)
Lemma retryFrom_shape config source index s :
  let r := retryFrom config source index s in
  (1 ≤ invocations r)%nat
  ∧ Z.of_nat index + Z.of_nat (invocations r)
    ≤ Z.max (Z.of_nat index + 1) (maxAttemptsOf config)
  ∧ delays r = delayFor config <$> seq index (invocations r - 1)
  ∧ result r = attempt source (invocations r - 1) s.
Proof.
  remember (Z.to_nat (maxAttemptsOf config - Z.of_nat index)) as m eqn:Hm.
  revert index s Hm. induction m as [m IH] using lt_wf_ind. intros index s Hm.
  simpl. rewrite retryFrom_unfold. unfold attempt.
  destruct (source s) as [[v|error] s'] eqn:Hs; simpl.
  { rewrite Hs. repeat split; try done; lia. }
  destruct (givesUp config index error) eqn:Hg; simpl.
  { rewrite Hs. repeat split; try done; lia. }
  unfold givesUp in Hg. apply orb_false_elim in Hg as [Hlt _].
  apply bool_decide_eq_false in Hlt.
  destruct (IH (Z.to_nat (maxAttemptsOf config - Z.of_nat (Datatypes.S index)))
              ltac:(lia) (Datatypes.S index) s' eq_refl)
    as (Hone & Hmax & Hdelays & Hres).
  simpl in Hone, Hmax, Hdelays, Hres.
  repeat split.
  - lia.
  - lia.
  - rewrite Hdelays, Nat.sub_0_r.
    destruct (invocations (retryFrom config source (Datatypes.S index) s'))
      as [|n]; [lia|]. simpl. by rewrite Nat.sub_0_r.
  - rewrite Hres, Nat.sub_0_r. unfold attempt.
    destruct (invocations (retryFrom config source (Datatypes.S index) s'))
      as [|n]; [lia|]. simpl. by rewrite Nat.sub_0_r, Hs.
Qed.

(** In a run started at error number [index], every subscription but the
    last failed with a failure the classifier accepts. *)
Lemma retryFrom_earlier config source index s (k : nat) :
  (k < invocations (retryFrom config source index s) - 1)%nat →
  ∃ error, attempt source k s = Err error ∧ isRetryable config error = true.
Proof.
  remember (Z.to_nat (maxAttemptsOf config - Z.of_nat index)) as m eqn:Hm.
  revert index s k Hm. induction m as [m IH] using lt_wf_ind.
  intros index s k Hm. rewrite retryFrom_unfold. unfold attempt.
  destruct (source s) as [[v|error] s'] eqn:Hs; simpl; [lia|].
  destruct (givesUp config index error) eqn:Hg; simpl; [lia|].
  unfold givesUp in Hg. apply orb_false_elim in Hg as [Hlt Hr].
  apply bool_decide_eq_false in Hlt. apply negb_false_iff in Hr.
  intros Hk. destruct k as [|k]; simpl.
  - rewrite Hs. eauto.
  - rewrite Hs. simpl.
    apply (IH (Z.to_nat (maxAttemptsOf config - Z.of_nat (Datatypes.S index)))
             ltac:(lia) (Datatypes.S index) s' k eq_refl). lia.
Qed.

(** A run that ends in a failure before [maxAttempts] is reached ended in
    a failure the classifier rejects. *)
Lemma retryFrom_early_failure config source index s error :
  result (retryFrom config source index s) = Err error →
  Z.of_nat index + Z.of_nat (invocations (retryFrom config source index s))
    < maxAttemptsOf config →
  isRetryable config error = false.
Proof.
  remember (Z.to_nat (maxAttemptsOf config - Z.of_nat index)) as m eqn:Hm.
  revert index s Hm. induction m as [m IH] using lt_wf_ind.
  intros index s Hm. rewrite retryFrom_unfold.
  destruct (source s) as [[v|e] s'] eqn:Hs; simpl; [done|].
  destruct (givesUp config index e) eqn:Hg; simpl.
  - intros [= ->] Hlt. unfold givesUp in Hg.
    rewrite bool_decide_eq_false_2 in Hg by lia. simpl in Hg.
    by apply negb_true_iff in Hg.
  - unfold givesUp in Hg. apply orb_false_elim in Hg as [Hlt _].
    apply bool_decide_eq_false in Hlt. intros Hres Hinv.
    apply (IH (Z.to_nat (maxAttemptsOf config - Z.of_nat (Datatypes.S index)))
             ltac:(lia) (Datatypes.S index) s' eq_refl Hres). lia.
Qed.

(** [k] retryable failures, then a success on an attempt that
    [maxAttempts] still allows. *)
Lemma retryFrom_success config source (k index : nat) s v :
  Z.of_nat index + Z.of_nat k < maxAttemptsOf config →
  (∀ j, (j < k)%nat →
     ∃ error, attempt source j s = Err error ∧ isRetryable config error = true) →
  attempt source k s = Ok v →
  retryFrom config source index s
  = mkRun (Ok v) (Datatypes.S k) (delayFor config <$> seq index k)
      (stateAfter source (Datatypes.S k) s).
Proof.
  revert index s. induction k as [|k IH]; intros index s Hmax Hfail Hok;
    rewrite retryFrom_unfold; unfold attempt in Hok; simpl in Hok.
  - destruct (source s) as [o s'] eqn:Hs. simpl in *. subst o. simpl. by rewrite Hs.
  - destruct (Hfail 0%nat) as (error & Ha & Hr); [lia|].
    unfold attempt in Ha. simpl in Ha.
    destruct (source s) as [o s'] eqn:Hs. simpl in *. subst o.
    unfold givesUp. rewrite bool_decide_eq_false_2 by lia. rewrite Hr. simpl.
    assert (Hrest : ∀ j, (j < k)%nat →
              ∃ e, attempt source j s' = Err e ∧ isRetryable config e = true).
    { intros j Hj. destruct (Hfail (Datatypes.S j)) as (e & He & Hre); [lia|].
      exists e. split; [|done]. unfold attempt in *. simpl in He.
      by rewrite Hs in He. }
    rewrite (IH (Datatypes.S index) s' ltac:(lia) Hrest Hok).
    unfold again. simpl. by rewrite Hs.
Qed.

Lemma delayFor_mono config (i j : nat) :
  0 ≤ delayMsOf config → 1 ≤ backoffMultiplierOf config → (i ≤ j)%nat →
  delayFor config i ≤ delayFor config j.
Proof.
  intros Hd Hm Hij. unfold delayFor.
  apply Z.mul_le_mono_nonneg_l; [done|].
  apply Z.pow_le_mono_r; lia.
Qed.

(** The three facts about a whole run that the bounds on it rest on. *)
Lemma retry_run_shape_aux config source s :
  let r := retryWithBackoff config source s in
  (1 ≤ invocations r)%nat
  ∧ Z.of_nat (invocations r) ≤ Z.max 1 (maxAttemptsOf config)
  ∧ delays r = delayFor config <$> seq 0 (invocations r - 1).
Proof.
  destruct (retryFrom_shape config source 0 s) as (H1 & H2 & H3 & _).
  simpl in *. done.
Qed.

End RetryShape.

(** X1.  If the attempts before attempt [k + 1] fail with retryable
    failures, attempt [k + 1] succeeds and [k + 1 ≤ maxAttempts], the
    operation is invoked exactly [k + 1] times, the delays are
    [delayMs * backoffMultiplier ^ 0 .. ^ (k - 1)], and the caller gets the
    value of attempt [k + 1]; nothing is scheduled after the success. *)
Theorem retry_stops_at_success {S T : Type} (config : RetryConfig)
    (source : Observable (S := S) (T := T)) (s : S) (k : nat) (v : T) :
  Z.of_nat k < maxAttemptsOf config →
  (∀ j, (j < k)%nat →
     ∃ error, attempt source j s = Err error ∧ isRetryable config error = true) →
  attempt source k s = Ok v →
  let r := retryWithBackoff config source s in
  result r = Ok v
  ∧ invocations r = Datatypes.S k
  ∧ delays r = (λ i, delayMsOf config * backoffMultiplierOf config ^ Z.of_nat i)
               <$> seq 0 k
  ∧ final r = stateAfter source (Datatypes.S k) s.
Proof.
  intros Hmax Hfail Hok r. subst r. unfold retryWithBackoff.
  by rewrite (retryFrom_success config source k 0 s v ltac:(lia) Hfail Hok).
Qed.

Lemma retry_stops_at_success_witness :
  let source : Observable (S := nat) (T := string) :=
    λ n, (if (n <? 2)%nat then Err Examples.unavailable else Ok "events",
          Datatypes.S n) in
  let r := retryWithBackoff (mkConfig (Some 5) (Some 250) (Some 4) None)
             source 0%nat in
  result r = Ok "events" ∧ invocations r = 3%nat ∧ delays r = [250; 1000]
  ∧ final r = 3%nat.
Proof.
  intros source.
  apply (retry_stops_at_success (mkConfig (Some 5) (Some 250) (Some 4) None)
           source 0%nat 2 "events").
  - reflexivity.
  - intros j Hj. exists Examples.unavailable. split; [|reflexivity].
    destruct j as [|[|j]]; [reflexivity|reflexivity|lia].
  - reflexivity.
Defined.

(** X2.  Whatever the source does, the operation is invoked at least once
    and at most [max 1 maxAttempts] times, there is one delay between two
    consecutive invocations and its value is
    [delayMs * backoffMultiplier ^ i] for the [i]-th one (from 0), and the
    caller gets the outcome of the last invocation. *)
Theorem retry_run_shape {S T : Type} (config : RetryConfig)
    (source : Observable (S := S) (T := T)) (s : S) :
  let r := retryWithBackoff config source s in
  (1 ≤ invocations r)%nat
  ∧ Z.of_nat (invocations r) ≤ Z.max 1 (maxAttemptsOf config)
  ∧ delays r = (λ i, delayMsOf config * backoffMultiplierOf config ^ Z.of_nat i)
               <$> seq 0 (invocations r - 1)
  ∧ result r = attempt source (invocations r - 1) s
  ∧ final r = stateAfter source (invocations r) s.
Proof.
  intros r. subst r. unfold retryWithBackoff.
  destruct (retryFrom_shape config source 0 s) as (H1 & H2 & H3 & H4).
  simpl in *. repeat split; try done. apply retryFrom_final.
Qed.

(** Four attempts 5 ms apart at first, the wait tripling each time, on a
    source that keeps failing with the one configured code. *)
Lemma retry_run_shape_witness :
  let r := retryWithBackoff (mkConfig (Some 4) (Some 5) (Some 3) (Some ["EPIPE"]))
             (Examples.alwaysFails Examples.brokenPipe) 0%nat in
  invocations r = 4%nat ∧ delays r = [5; 15; 45]
  ∧ result r = Err Examples.brokenPipe.
Proof.
  destruct (retry_run_shape (mkConfig (Some 4) (Some 5) (Some 3) (Some ["EPIPE"]))
              (Examples.alwaysFails Examples.brokenPipe) 0%nat)
    as (_ & _ & Hdelays & Hres & _).
  split; [reflexivity|]. split; [exact Hdelays | exact Hres].
Defined.

(** X3.  Every invocation but the last failed with a retryable failure;
    and when the run ends in a failure although fewer than [maxAttempts]
    invocations were made, that failure is not retryable. *)
Theorem retry_stopping_reason {S T : Type} (config : RetryConfig)
    (source : Observable (S := S) (T := T)) (s : S) :
  let r := retryWithBackoff config source s in
  (∀ k, (k < invocations r - 1)%nat →
     ∃ error, attempt source k s = Err error ∧ isRetryable config error = true)
  ∧ (∀ error, result r = Err error →
       Z.of_nat (invocations r) < maxAttemptsOf config →
       isRetryable config error = false).
Proof.
  intros r. subst r. unfold retryWithBackoff. split.
  - intros k. apply retryFrom_earlier.
  - intros error Hres Hlt. by apply (retryFrom_early_failure config source 0 s).
Qed.

Lemma retry_stopping_reason_witness :
  let source : Observable (S := nat) (T := string) :=
    λ n, (if (n <? 1)%nat then Err Examples.refused else Err Examples.badRequest,
          Datatypes.S n) in
  invocations (retryWithBackoff (Examples.attempts 5) source 0%nat) = 2%nat
  ∧ attempt source 0 0%nat = Err Examples.refused
  ∧ isRetryable (Examples.attempts 5) Examples.badRequest = false.
Proof.
  intros source.
  destruct (retry_stopping_reason (Examples.attempts 5) source 0%nat)
    as [Hearlier Hlast].
  split; [reflexivity|]. split.
  - destruct (Hearlier 0%nat) as (error & Ha & _); [vm_compute; lia|].
    reflexivity.
  - apply Hlast; [reflexivity | vm_compute; reflexivity].
Defined.

(** X4.  With no configuration at all ([retryWithBackoff()]), the operation
    is invoked at most three times and the waits are 1000 ms and then
    2000 ms, as far as the run gets. *)
Theorem retry_default_policy {S T : Type}
    (source : Observable (S := S) (T := T)) (s : S) :
  let r := retryWithBackoff emptyConfig source s in
  (1 ≤ invocations r ≤ 3)%nat
  ∧ delays r = take (invocations r - 1) [1000; 2000].
Proof.
  intros r. destruct (retry_run_shape_aux emptyConfig source s) as (H1 & H2 & H3).
  fold r in H1, H2, H3. change (maxAttemptsOf emptyConfig) with 3 in H2.
  split; [lia|]. rewrite H3.
  destruct (invocations r) as [|[|[|[|n]]]]; try reflexivity; lia.
Qed.

(** X5.  When [delayMs] is not negative and [backoffMultiplier] is at
    least 1, the waits of a run never shrink: a later delay is at least
    as long as an earlier one. *)
Theorem retry_backoff_monotone {S T : Type} (config : RetryConfig)
    (source : Observable (S := S) (T := T)) (s : S) (i j : nat) (d d' : Z) :
  0 ≤ delayMsOf config →
  1 ≤ backoffMultiplierOf config →
  (i ≤ j)%nat →
  delays (retryWithBackoff config source s) !! i = Some d →
  delays (retryWithBackoff config source s) !! j = Some d' →
  d ≤ d'.
Proof.
  intros Hd Hm Hij.
  destruct (retry_run_shape_aux config source s) as (_ & _ & ->).
  rewrite !list_lookup_fmap. intros Hi Hj.
  apply fmap_Some in Hi as (x & Hx & ->). apply fmap_Some in Hj as (y & Hy & ->).
  apply lookup_seq in Hx as [-> _]. apply lookup_seq in Hy as [-> _].
  by apply delayFor_mono.
Qed.

Lemma retry_backoff_monotone_witness :
  let r := retryWithBackoff (Examples.attempts 3)
             (Examples.alwaysFails Examples.refused) 0%nat in
  delays r !! 0%nat = Some 1000 ∧ delays r !! 1%nat = Some 2000 ∧ 1000 ≤ 2000.
Proof.
  split; [reflexivity|]. split; [reflexivity|].
  apply (retry_backoff_monotone (Examples.attempts 3)
           (Examples.alwaysFails Examples.refused) 0%nat 0 1 1000 2000);
    [vm_compute; discriminate | vm_compute; discriminate | lia
    | reflexivity | reflexivity].
Defined.

(** * Further properties of the idempotency service *)
Section IdempotencyMore.
Context {Value : Type}.
Implicit Types (w : World Value) (operation : Operation (Value := Value))
  (record : IdempotencyRecord Value) (k : string).

(** The three ways a call with a truthy key can go. *)
Lemma checkAndStore_cases k operation w :
  k ≠ "" →
  (∃ record, cache w !! k = Some record ∧ now w - timestamp record < ttlMs
             ∧ checkAndStore (Some k) operation w
               = (Ok (response record), emit (CacheGet k) w))
  ∨ (∃ record, cache w !! k = Some record ∧ ttlMs ≤ now w - timestamp record
               ∧ checkAndStore (Some k) operation w
                 = proceed k operation (delete k (cache w)) (now w)
                     ((log w ++ [CacheGet k]) ++ [CacheDelete k]))
  ∨ (cache w !! k = None
     ∧ checkAndStore (Some k) operation w
       = proceed k operation (cache w) (now w) (log w ++ [CacheGet k])).
Proof.
  intros Hk. destruct (cache w !! k) as [record|] eqn:Hc.
  - destruct (decide (now w - timestamp record < ttlMs)) as [Hhit|Hexp].
    + left. exists record. by rewrite (checkAndStore_hit _ _ _ _ Hk Hc Hhit).
    + right; left. exists record.
      rewrite (checkAndStore_expired _ _ _ _ Hk Hc) by lia.
      split; [done|]. split; [lia|done].
  - right; right. by rewrite (checkAndStore_absent _ _ _ Hk Hc).
Qed.

Lemma truthy_cases (key : option string) :
  (truthy key = false) ∨ (∃ k, key = Some k ∧ k ≠ "").
Proof.
  destruct key as [k|]; [|by left].
  destruct (decide (k = "")) as [->|Hk]; [by left|]. right. eauto.
Qed.

(** What is in the cache once [proceed] is through. *)
Lemma proceed_lookup k operation c t l k' :
  cache (proceed k operation c t l).2 !! k'
  = match operation t with
    | (Ok v, t') =>
        if decide (k = k') then Some (mkRecord k v t')
        else match c !! k' with
             | Some r => if decide (ttlMs < t' - timestamp r) then None else Some r
             | None => None
             end
    | (Err _, _) => c !! k'
    end.
Proof.
  unfold proceed. destruct (operation t) as [[v|e] t']; simpl; [|done].
  destruct (decide (k = k')) as [<-|Hne].
  - apply map_lookup_filter_Some. split; [apply lookup_insert_eq|].
    unfold sweepable, ttlMs. simpl. lia.
  - destruct (c !! k') as [r|] eqn:Hc.
    + destruct (decide (ttlMs < t' - timestamp r)) as [Hold|Hyoung].
      * apply map_lookup_filter_None. right. intros x Hx.
        rewrite lookup_insert_ne, Hc in Hx by done. inversion Hx; subst.
        unfold sweepable. simpl. tauto.
      * apply map_lookup_filter_Some. rewrite lookup_insert_ne by done.
        split; [done|]. unfold sweepable. simpl. lia.
    + apply map_lookup_filter_None. left. by rewrite lookup_insert_ne.
Qed.

Lemma proceed_now k operation c t l :
  now (proceed k operation c t l).2 = (operation t).2.
Proof. unfold proceed. by destruct (operation t) as [[v|e] t']. Qed.

Lemma cleanupExpired_lookup w k :
  cache (cleanupExpired w).2 !! k
  = match cache w !! k with
    | Some r => if decide (ttlMs < now w - timestamp r) then None else Some r
    | None => None
    end.
Proof.
  simpl. destruct (cache w !! k) as [r|] eqn:Hc.
  - destruct (decide (ttlMs < now w - timestamp r)) as [Hold|Hyoung].
    + apply map_lookup_filter_None. right. intros x Hx. rewrite Hc in Hx.
      inversion Hx; subst. unfold sweepable. simpl. tauto.
    + apply map_lookup_filter_Some. split; [done|]. unfold sweepable. simpl. lia.
  - apply map_lookup_filter_None. by left.
Qed.

(** The operation runs at most once in a call, and not at all exactly when
    the call found an unexpired record. *)
Lemma checkAndStore_invocations key operation w :
  let r := checkAndStore key operation w in
  (invocationsIn (log r.2) = invocationsIn (log w)
   ∧ ∃ k record, key = Some k ∧ k ≠ "" ∧ cache w !! k = Some record
                 ∧ now w - timestamp record < ttlMs
                 ∧ r.1 = Ok (response record))
  ∨ (invocationsIn (log r.2) = Datatypes.S (invocationsIn (log w))
     ∧ r.1 = (operation (now w)).1).
Proof.
  intros r. subst r. destruct (truthy_cases key) as [Hf|(k & -> & Hk)].
  - right. rewrite (checkAndStore_falsy _ _ _ Hf). unfold call.
    destruct (operation (now w)) as [o t']. simpl.
    rewrite invocationsIn_app. unfold invocationsIn. simpl. split; [lia|done].
  - destruct (checkAndStore_cases k operation w Hk)
      as [(record & Hc & Hage & ->)|[(record & Hc & Hage & ->)|(Hc & ->)]].
    + left. simpl. rewrite invocationsIn_app. unfold invocationsIn. simpl.
      split; [lia|]. exists k, record. done.
    + right. destruct (proceed_invokes k operation (delete k (cache w)) (now w)
                         ((log w ++ [CacheGet k]) ++ [CacheDelete k])) as [-> ->].
      rewrite !invocationsIn_app. unfold invocationsIn. simpl. split; [lia|done].
    + right. destruct (proceed_invokes k operation (cache w) (now w)
                         (log w ++ [CacheGet k])) as [-> ->].
      rewrite !invocationsIn_app. unfold invocationsIn. simpl. split; [lia|done].
Qed.

End IdempotencyMore.

(** X6.  [cleanupExpired] deletes exactly the records whose age is greater
    than the TTL and leaves every other record as it is; sweeping a second
    time at the same clock deletes nothing more. *)
Theorem sweep_removes_exactly_stale {Value : Type} (w : World Value) (k : string) :
  cache (cleanupExpired w).2 !! k
  = match cache w !! k with
    | Some r => if decide (ttlMs < now w - timestamp r) then None else Some r
    | None => None
    end
  ∧ cache (cleanupExpired (cleanupExpired w).2).2 = cache (cleanupExpired w).2.
Proof.
  split; [apply cleanupExpired_lookup|].
  apply map_eq. intros i. rewrite (cleanupExpired_lookup (cleanupExpired w).2).
  change (now (cleanupExpired w).2) with (now w).
  rewrite (cleanupExpired_lookup w i).
  destruct (cache w !! i) as [r|]; [|done].
  destruct (decide (ttlMs < now w - timestamp r)) as [Hold|Hyoung]; [done|].
  by rewrite decide_False.
Qed.

(** X7.  When a keyed call runs its operation and the operation succeeds,
    the call leaves no record in the store that is older than the TTL at
    the time the result is stored: the sweep after the store has removed
    every stale record, of whatever key. *)
Theorem store_leaves_nothing_stale {Value : Type} (w : World Value) (k : string)
    (operation : Operation) (v : Value) (t' : Z) :
  k ≠ "" →
  (∀ record, cache w !! k = Some record → ttlMs ≤ now w - timestamp record) →
  operation (now w) = (Ok v, t') →
  let r := checkAndStore (Some k) operation w in
  r.1 = Ok v
  ∧ now r.2 = t'
  ∧ ∀ k' record', cache r.2 !! k' = Some record' →
      t' - timestamp record' ≤ ttlMs.
Proof.
  intros Hk Hold Hop r.
  assert (Hp : ∃ c l, r = proceed k operation c (now w) l).
  { subst r. destruct (checkAndStore_cases k operation w Hk)
      as [(record & Hc & Hage & _)|[(record & _ & _ & ->)|(_ & ->)]]; eauto.
    specialize (Hold record Hc). lia. }
  destruct Hp as (c & l & ->).
  destruct (proceed_success k operation c (now w) l v t' Hop) as [Hres _].
  split; [done|]. split; [by rewrite proceed_now, Hop|].
  intros k' record'. rewrite proceed_lookup, Hop.
  destruct (decide (k = k')) as [_|_].
  - intros [= <-]. unfold ttlMs. simpl. lia.
  - destruct (c !! k') as [r0|]; [|done].
    destruct (decide (ttlMs < t' - timestamp r0)); [done|].
    intros [= <-]. lia.
Qed.

Lemma store_leaves_nothing_stale_witness :
  let old : IdempotencyRecord string := mkRecord "create-7" "CREATED" 0 in
  let w : World string :=
    mkWorld {[ "create-7" := old ]} (25 * 60 * 60 * 1000) [] in
  let r := checkAndStore (Some "submit-42") (Examples.succeeds "SUBMITTED") w in
  r.1 = Ok "SUBMITTED" ∧ cache r.2 !! "create-7" = None.
Proof.
  intros old w.
  destruct (store_leaves_nothing_stale w "submit-42"
              (Examples.succeeds "SUBMITTED") "SUBMITTED"
              (25 * 60 * 60 * 1000 + 5)) as (Hres & _ & _).
  - discriminate.
  - intros record H. vm_compute in H. discriminate H.
  - reflexivity.
  - split; [exact Hres | vm_compute; reflexivity].
Defined.

(** X8.  A call made with one key never replaces the record of another
    key: that record is either left exactly as it was, or deleted because
    it is older than the TTL at the end of the call. *)
Theorem other_keys_untouched {Value : Type} (w : World Value)
    (key : option string) (operation : Operation) (k' : string) :
  key ≠ Some k' →
  let r := checkAndStore key operation w in
  cache r.2 !! k' = cache w !! k'
  ∨ (cache r.2 !! k' = None
     ∧ ∃ record', cache w !! k' = Some record'
                  ∧ ttlMs < now r.2 - timestamp record').
Proof.
  intros Hne r. subst r. destruct (truthy_cases key) as [Hf|(k & -> & Hk)].
  - left. rewrite (checkAndStore_falsy _ _ _ Hf). unfold call.
    by destruct (operation (now w)) as [o t'].
  - assert (Hkk : k ≠ k') by congruence.
    assert (Hgo : ∀ c l, c !! k' = cache w !! k' →
              cache (proceed k operation c (now w) l).2 !! k' = cache w !! k'
              ∨ (cache (proceed k operation c (now w) l).2 !! k' = None
                 ∧ ∃ record', cache w !! k' = Some record'
                     ∧ ttlMs < now (proceed k operation c (now w) l).2
                               - timestamp record')).
    { intros c l Hc. rewrite proceed_lookup, proceed_now.
      destruct (operation (now w)) as [[v|e] t']; simpl; [|by left].
      rewrite decide_False by done. rewrite Hc.
      destruct (cache w !! k') as [r0|]; [|by left].
      destruct (decide (ttlMs < t' - timestamp r0)); [|by left].
      right. eauto. }
    destruct (checkAndStore_cases k operation w Hk)
      as [(record & Hc & Hage & ->)|[(record & Hc & Hage & ->)|(Hc & ->)]].
    + by left.
    + apply Hgo. by rewrite lookup_delete_ne.
    + by apply Hgo.
Qed.

Lemma other_keys_untouched_witness :
  let r := checkAndStore (Some "create-7") (Examples.succeeds "CREATED")
             (Examples.stored 2000) in
  cache r.2 !! "submit-42" = Some Examples.submitted.
Proof.
  destruct (other_keys_untouched (Examples.stored 2000) (Some "create-7")
              (Examples.succeeds "CREATED") "submit-42") as [H|[H _]].
  - discriminate.
  - exact H.
  - vm_compute in H. discriminate H.
Defined.

(** X9.  One call invokes its operation at most once; it invokes it not at
    all exactly when it was made with a truthy key for which the store
    holds a record younger than the TTL, and then it returns that record's
    response; otherwise the outcome is the operation's. *)
Theorem invoked_at_most_once {Value : Type} (w : World Value)
    (key : option string) (operation : Operation) :
  let r := checkAndStore key operation w in
  ((invocationsIn (log r.2) = invocationsIn (log w)
    ∧ ∃ k record, key = Some k ∧ k ≠ "" ∧ cache w !! k = Some record
                  ∧ now w - timestamp record < ttlMs
                  ∧ r.1 = Ok (response record))
   ∨ (invocationsIn (log r.2) = Datatypes.S (invocationsIn (log w))
      ∧ r.1 = (operation (now w)).1))
  ∧ (invocationsIn (log r.2) = invocationsIn (log w)
     ↔ ∃ k record, key = Some k ∧ k ≠ "" ∧ cache w !! k = Some record
                   ∧ now w - timestamp record < ttlMs)
  ∧ (∀ k record, key = Some k → k ≠ "" → cache w !! k = Some record →
     now w - timestamp record < ttlMs →
     invocationsIn (log r.2) = invocationsIn (log w)
     ∧ r.1 = Ok (response record)
     ∧ cache r.2 = cache w).
Proof.
  intros r.
  assert (Hhit : ∀ k record, key = Some k → k ≠ "" → cache w !! k = Some record →
                 now w - timestamp record < ttlMs →
                 invocationsIn (log r.2) = invocationsIn (log w)
                 ∧ r.1 = Ok (response record)
                 ∧ cache r.2 = cache w).
  { intros k record -> Hk Hc Hage. subst r.
    rewrite (checkAndStore_hit k operation w record Hk Hc Hage). simpl.
    rewrite invocationsIn_app. unfold invocationsIn. simpl.
    split; [lia|done]. }
  split; [apply checkAndStore_invocations|]. split; [|exact Hhit].
  split.
  - intros Hsame.
    destruct (checkAndStore_invocations key operation w)
      as [(_ & k & record & Hkey & Hk & Hc & Hage & _)|[Hran _]].
    + by exists k, record.
    + fold r in Hran. lia.
  - intros (k & record & Hkey & Hk & Hc & Hage).
    by destruct (Hhit k record Hkey Hk Hc Hage).
Qed.

(** A second operation under the key ["submit-42"], five seconds after the
    first was stored, is not run. *)
Lemma invoked_at_most_once_witness :
  let r := checkAndStore (Some "submit-42") (Examples.succeeds "AGAIN")
             (Examples.stored 6000) in
  invocationsIn (log r.2) = 0%nat ∧ r.1 = Ok "SUBMITTED".
Proof.
  destruct (invoked_at_most_once (Examples.stored 6000) (Some "submit-42")
              (Examples.succeeds "AGAIN")) as (_ & _ & Hhit).
  destruct (Hhit "submit-42" Examples.submitted) as (Hinv & Hres & _).
  - reflexivity.
  - discriminate.
  - reflexivity.
  - vm_compute. reflexivity.
  - split; [exact Hinv | exact Hres].
Defined.

(** X10.  After [clear()] the store is empty, and the next call with any
    truthy key runs its operation, once, whatever was stored before. *)
Theorem clear_forgets_every_key {Value : Type} (w : World Value) (k : string)
    (operation : Operation) :
  k ≠ "" →
  let w1 := (clear w).2 in
  let r := checkAndStore (Some k) operation w1 in
  cache w1 = ∅
  ∧ r.1 = (operation (now w)).1
  ∧ invocationsIn (log r.2) = Datatypes.S (invocationsIn (log w)).
Proof.
  intros Hk w1 r. split; [done|]. subst r.
  rewrite (checkAndStore_absent k operation w1 Hk) by apply lookup_empty.
  destruct (proceed_invokes k operation (cache w1) (now w1) (log w1 ++ [CacheGet k]))
    as [-> ->].
  split; [done|]. simpl. rewrite invocationsIn_app. unfold invocationsIn. simpl. lia.
Qed.

Lemma clear_forgets_every_key_witness :
  let w1 := (clear (Examples.stored 2000)).2 in
  let r := checkAndStore (Some "submit-42") (Examples.succeeds "AGAIN") w1 in
  cache w1 = ∅ ∧ r.1 = Ok "AGAIN".
Proof.
  destruct (clear_forgets_every_key (Examples.stored 2000) "submit-42"
              (Examples.succeeds "AGAIN")) as (Hempty & Hres & _).
  - discriminate.
  - split; [exact Hempty | exact Hres].
Defined.

(** X11.  In every state a service instance can reach from its empty
    start, by calls of [checkAndStore] and [clear] with the clock moving in
    between, no record is filed under the empty string and every record
    carries the key it is filed under. *)
Theorem reachable_wellKeyed {Value : Type} (w : World Value) :
  ServiceRuns.reachable w → wellKeyed w.
Proof.
  induction 1 as [t|c w _ IH|t w _ IH].
  - apply wellKeyed_new.
  - destruct c as [key operation|]; simpl.
    + by apply checkAndStore_wellKeyed.
    + apply wellKeyed_new.
  - exact IH.
Qed.

Lemma reachable_wellKeyed_witness :
  wellKeyed
    (ServiceRuns.after
       (ServiceRuns.CheckAndStore (Some "") (Examples.succeeds "CREATED"))
       (ServiceRuns.after
          (ServiceRuns.CheckAndStore (Some "submit-42") (Examples.succeeds "SUBMITTED"))
          (Examples.fresh 0))).
Proof.
  apply reachable_wellKeyed.
  apply ServiceRuns.reachable_call, ServiceRuns.reachable_call,
    ServiceRuns.reachable_new.
Defined.

(** X12.  When the record of the key has reached the TTL, the call deletes
    it, runs the operation and, if the operation succeeds, files the new
    result under the key with the time of completion as its timestamp. *)
Theorem expired_record_replaced {Value : Type} (w : World Value) (k : string)
    (operation : Operation) (record : IdempotencyRecord Value) (v : Value) (t' : Z) :
  k ≠ "" →
  cache w !! k = Some record →
  ttlMs ≤ now w - timestamp record →
  operation (now w) = (Ok v, t') →
  let r := checkAndStore (Some k) operation w in
  r.1 = Ok v
  ∧ cache r.2 !! k = Some (mkRecord k v t')
  ∧ log r.2 = (log w ++ [CacheGet k; CacheDelete k; Invoked; CacheSet k; Cleanup])%list.
Proof.
  intros Hk Hc Hage Hop r. subst r.
  rewrite (checkAndStore_expired _ _ _ _ Hk Hc Hage).
  destruct (proceed_success k operation (delete k (cache w)) (now w)
              ((log w ++ [CacheGet k]) ++ [CacheDelete k]) v t' Hop) as [Hres Hrec].
  split; [done|]. split; [done|].
  unfold proceed. rewrite Hop. simpl. by rewrite <- !app_assoc.
Qed.

Lemma expired_record_replaced_witness :
  let w := Examples.stored (1000 + ttlMs) in
  let r := checkAndStore (Some "submit-42") (Examples.succeeds "AGAIN") w in
  r.1 = Ok "AGAIN"
  ∧ cache r.2 !! "submit-42" = Some (mkRecord "submit-42" "AGAIN" (1000 + ttlMs + 5)).
Proof.
  destruct (expired_record_replaced (Examples.stored (1000 + ttlMs)) "submit-42"
              (Examples.succeeds "AGAIN") Examples.submitted "AGAIN"
              (1000 + ttlMs + 5)) as (Hres & Hrec & _).
  - discriminate.
  - reflexivity.
  - vm_compute. discriminate.
  - reflexivity.
  - split; [exact Hres | exact Hrec].
Defined.

(** X13.  A replay does not renew the record: the TTL runs from the time
    the result was stored, so however often the key is replayed in
    between, a call made when the record's age has reached the TTL runs
    its operation. *)
Theorem ttl_not_sliding {Value : Type} (w : World Value) (k : string)
    (replayed late : Operation) (record : IdempotencyRecord Value) (t2 : Z) :
  wellKeyed w →
  cache w !! k = Some record →
  now w - timestamp record < ttlMs →
  ttlMs ≤ t2 - timestamp record →
  let w1 := (checkAndStore (Some k) replayed w).2 in
  let r := checkAndStore (Some k) late (mkWorld (cache w1) t2 (log w1)) in
  cache w1 !! k = Some record
  ∧ r.1 = (late t2).1
  ∧ invocationsIn (log r.2) = Datatypes.S (invocationsIn (log w)).
Proof.
  intros Hw Hc Hyoung Hold w1 r. destruct (Hw k record Hc) as [Hk _].
  assert (Hw1 : w1 = emit (CacheGet k) w).
  { subst w1. by rewrite (checkAndStore_hit _ _ _ _ Hk Hc Hyoung). }
  subst r. rewrite Hw1. simpl. split; [done|].
  rewrite (checkAndStore_expired k late _ record Hk) by done.
  destruct (proceed_invokes k late (delete k (cache w)) t2
              (((log w ++ [CacheGet k]) ++ [CacheGet k]) ++ [CacheDelete k]))
    as [Hres Hinv].
  simpl in *. rewrite Hres, Hinv. split; [done|].
  rewrite !invocationsIn_app. unfold invocationsIn. simpl. lia.
Qed.

Lemma ttl_not_sliding_witness :
  let w := Examples.stored (1000 + ttlMs - 1) in
  let w1 := (checkAndStore (Some "submit-42") (Examples.succeeds "X") w).2 in
  let r := checkAndStore (Some "submit-42") (Examples.succeeds "AGAIN")
             (mkWorld (cache w1) (1000 + ttlMs) (log w1)) in
  r.1 = Ok "AGAIN".
Proof.
  destruct (ttl_not_sliding (Examples.stored (1000 + ttlMs - 1)) "submit-42"
              (Examples.succeeds "X") (Examples.succeeds "AGAIN")
              Examples.submitted (1000 + ttlMs)) as (_ & Hres & _).
  - intros k r H. simpl in H. apply lookup_singleton_Some in H as [<- <-]. by split.
  - reflexivity.
  - vm_compute. reflexivity.
  - vm_compute. discriminate.
  - exact Hres.
Defined.

(** X14.  While the record of a key is younger than the TTL, any number
    of calls with that key, one after the other and each with its own
    operation, all return the stored response; none of the operations
    runs and the store stays as it is. *)
Theorem replays_are_stable {Value : Type} (w : World Value) (k : string)
    (operations : list Operation) (record : IdempotencyRecord Value) :
  wellKeyed w →
  cache w !! k = Some record →
  now w - timestamp record < ttlMs →
  let r := ServiceRuns.callEach (Some k) operations w in
  r.1 = replicate (length operations) (Ok (response record))
  ∧ cache r.2 = cache w
  ∧ now r.2 = now w
  ∧ invocationsIn (log r.2) = invocationsIn (log w).
Proof.
  intros Hw Hc Hage. destruct (Hw k record Hc) as [Hk _]. clear Hw.
  revert w Hc Hage. induction operations as [|operation rest IH];
    intros w Hc Hage; [done|].
  simpl. rewrite (checkAndStore_hit _ _ _ _ Hk Hc Hage).
  specialize (IH (emit (CacheGet k) w) Hc Hage).
  destruct (ServiceRuns.callEach (Some k) rest (emit (CacheGet k) w)) as [os w''].
  simpl in *. destruct IH as (-> & -> & -> & ->).
  repeat split. rewrite invocationsIn_app. unfold invocationsIn. simpl. lia.
Qed.

Lemma replays_are_stable_witness :
  (ServiceRuns.callEach (Some "submit-42")
     [Examples.succeeds "A"; Examples.fails Examples.refused; Examples.succeeds "B"]
     (Examples.stored 6000)).1
  = [Ok "SUBMITTED"; Ok "SUBMITTED"; Ok "SUBMITTED"].
Proof.
  apply (replays_are_stable (Examples.stored 6000) "submit-42"
           [Examples.succeeds "A"; Examples.fails Examples.refused;
            Examples.succeeds "B"] Examples.submitted).
  - intros k r H. simpl in H. apply lookup_singleton_Some in H as [<- <-]. by split.
  - reflexivity.
  - vm_compute. reflexivity.
Defined.

(** * Properties of the events service (events.service.ts) *)
Section EventsDbFacts.
Import EventsDb.
#[local] Set Warnings "-clear-no-such-hyp".

(** X15.  A request on an event of another organization is refused with
    status 403, and the table is left as it was: no method reads out,
    changes or deletes an event across organizations. *)
Theorem tenant_isolation (req : Request) (id organizationId : string) (db : Db)
    (event : Event) :
  events db !! id = Some event →
  EventsDb.organizationId event ≠ organizationId →
  ∃ e, perform req id organizationId db = (Err e, db) ∧ Js.status e = JNumber 403.
Proof.
  intros Hev Hne. destruct req; unfold perform, findOne, update, remove, submit,
    approve, reject, throw; simpl; rewrite ?Hev;
    repeat (case_bool_decide; simpl); try done; eauto.
Qed.

(** X16.  A well-typed request that the service refuses changes nothing
    in the table, and the exception it throws has status 403, 404 or 409
    and no [code], so that the gateway's retry classifier rejects it under
    every configuration. *)
Theorem refusal_changes_nothing (req : Request) (id organizationId : string)
    (db db' : Db) (e : JsError) :
  perform req id organizationId db = (Err e, db') →
  db' = db
  ∧ (Js.status e = JNumber 403 ∨ Js.status e = JNumber 404 ∨ Js.status e = JNumber 409)
  ∧ ∀ config, isRetryable config e = false.
Proof.
  intros Hp.
  assert (H : db' = db ∧ code e = JUndefined
              ∧ (Js.status e = JNumber 403 ∨ Js.status e = JNumber 404
                 ∨ Js.status e = JNumber 409)).
  { destruct req; unfold perform, findOne, update, remove, submit, approve,
      reject, throw, prismaUpdate in Hp; simpl in Hp;
      destruct (events db !! id) as [event|];
      repeat (case_bool_decide; simpl in Hp);
      try discriminate Hp; injection Hp as <- <-; simpl; auto. }
  destruct H as (-> & Hcode & Hstatus). split; [done|]. split; [done|].
  intros config. apply not_true_is_false. rewrite isRetryable_iff, Hcode.
  intros [(c & _ & Hc)|[Hs|Hs]]; [done| |];
    destruct Hstatus as [H|[H|H]]; congruence.
Qed.

Lemma tenant_isolation_witness :
  ∃ e, perform (Remove "user-9" "ADMIN") "event-1" "org-2" (Examples.table 0)
       = (Err e, Examples.table 0)
       ∧ Js.status e = JNumber 403.
Proof.
  apply (tenant_isolation (Remove "user-9" "ADMIN") "event-1" "org-2"
           (Examples.table 0) Examples.draft).
  - reflexivity.
  - discriminate.
Defined.

Lemma refusal_changes_nothing_witness :
  perform (Submit "user-1") "event-404" "org-1" (Examples.table 0)
  = (Err (NotFoundException "Event not found"), Examples.table 0)
  ∧ isRetryable (Examples.attempts 3) (NotFoundException "Event not found") = false.
Proof.
  split; [reflexivity|].
  apply (refusal_changes_nothing (Submit "user-1") "event-404" "org-1"
           (Examples.table 0) (Examples.table 0)
           (NotFoundException "Event not found")).
  reflexivity.
Defined.

(** What a request leaves of a row: nothing but the row under [id] is
    touched, and of that row the identity columns stay. *)
Lemma perform_rows (req : Request) (id organizationId : string) (db : Db)
    (id' : string) (e1 : Event) :
  events (perform req id organizationId db).2 !! id' = Some e1 →
  ∃ e0, events db !! id' = Some e0
        ∧ EventsDb.id e1 = EventsDb.id e0
        ∧ EventsDb.organizationId e1 = EventsDb.organizationId e0
        ∧ createdById e1 = createdById e0
        ∧ createdAt e1 = createdAt e0
        ∧ (status e1 = status e0 ∨ Workflow.transition (status e0) (status e1))
        ∧ (id' ≠ id → e1 = e0).
Proof.
  assert (Hsame : events db !! id' = Some e1 →
            ∃ e0, events db !! id' = Some e0
              ∧ EventsDb.id e1 = EventsDb.id e0
              ∧ EventsDb.organizationId e1 = EventsDb.organizationId e0
              ∧ createdById e1 = createdById e0
              ∧ createdAt e1 = createdAt e0
              ∧ (status e1 = status e0 ∨ Workflow.transition (status e0) (status e1))
              ∧ (id' ≠ id → e1 = e0)).
  { intros H. exists e1. repeat split; auto. }
  destruct req as [u r|dto u r|u r|u|r who|reason r who];
    unfold perform, findOne, update, remove, submit, approve, reject, throw,
      prismaUpdate; simpl;
    destruct (events db !! id) as [event|] eqn:Hev;
    repeat (case_bool_decide; simpl); try exact Hsame;
    try (intros Hrow; apply lookup_delete_Some in Hrow as [_ Hrow];
         by apply Hsame).
  all: intros Hrow; destruct (decide (id = id')) as [<-|Hne];
    [ rewrite lookup_insert_eq in Hrow; injection Hrow as <-; exists event
    | rewrite lookup_insert_ne in Hrow by done; by apply Hsame ].
  all: repeat split; simpl; auto; try done.
  all: try (by destruct reason).
  all: right.
  all: match goal with Hs : status _ = _ |- _ => rewrite Hs end.
  - constructor.
  - constructor.
  - destruct reason; simpl; constructor.
Qed.

(** X17.  Whatever [findOne], [update], [remove], [submit], [approve] or
    [reject] is asked, by whomever: a row that is still in the
    table afterwards was there before with the same id, organization,
    creator and creation time; its status is the old one or one step on
    along DRAFT -> SUBMITTED -> APPROVED / REJECTED; and rows under other
    ids are exactly as they were.  No request adds a row. *)
Theorem rows_keep_identity_and_workflow (req : Request)
    (id organizationId : string) (db : Db) (id' : string) (e1 : Event) :
  events (perform req id organizationId db).2 !! id' = Some e1 →
  ∃ e0, events db !! id' = Some e0
        ∧ EventsDb.id e1 = EventsDb.id e0
        ∧ EventsDb.organizationId e1 = EventsDb.organizationId e0
        ∧ createdById e1 = createdById e0
        ∧ createdAt e1 = createdAt e0
        ∧ (status e1 = status e0 ∨ Workflow.transition (status e0) (status e1))
        ∧ (id' ≠ id → e1 = e0).
Proof. apply perform_rows. Qed.

Lemma rows_keep_identity_and_workflow_witness :
  ∃ e0, events (Examples.table 0) !! "event-1" = Some e0
        ∧ Workflow.transition (status e0) SUBMITTED.
Proof.
  destruct (rows_keep_identity_and_workflow (Submit "user-1") "event-1" "org-1"
              (Examples.table 5) "event-1"
              (setStatus SUBMITTED None
                 (mkEvent "event-1" "Retreat" "Two days off-site" (Some "Lisbon")
                    1780000000000 1780086400000 DRAFT None "org-1" "user-1"
                    1770000000000 5)))
    as (e0 & He0 & _ & _ & _ & _ & [Hs|Ht] & _).
  - reflexivity.
  - exists e0. split; [exact He0|].
    injection He0 as <-. discriminate Hs.
  - exists e0. split; [exact He0 | exact Ht].
Defined.

(** X18.  An APPROVED or REJECTED event is at the end of the workflow:
    [submit], [approve] and [reject] on it are refused for every caller,
    and the table stays as it is.  In particular a rejected event cannot
    be submitted again. *)
Theorem decided_events_are_final (req : Request) (id organizationId : string)
    (db : Db) (event : Event) :
  events db !! id = Some event →
  status event = APPROVED ∨ status event = REJECTED →
  Workflow.moderates req = true →
  ∃ e, perform req id organizationId db = (Err e, db).
Proof.
  intros Hev Hst Hreq.
  destruct req; try discriminate Hreq;
    unfold perform, submit, approve, reject, throw; simpl; rewrite ?Hev;
    repeat (case_bool_decide; simpl); eauto;
    exfalso; destruct Hst as [Hst|Hst]; rewrite Hst in *; discriminate.
Qed.

Lemma decided_events_are_final_witness :
  let rejected := setStatus REJECTED (Some "Missing venue details") Examples.draft in
  let db := mkDb {[ "event-1" := rejected ]} 0 in
  ∃ e, perform (Submit "user-1") "event-1" "org-1" db = (Err e, db).
Proof.
  intros rejected db.
  apply (decided_events_are_final (Submit "user-1") "event-1" "org-1" db rejected).
  - reflexivity.
  - right. reflexivity.
  - reflexivity.
Defined.

(** X19.  [remove] deletes the event exactly when it exists in the
    caller's organization and the caller is either a USER deleting a DRAFT
    of their own, or neither a USER nor a MODERATOR; a MODERATOR never
    deletes.  It then deletes that row and nothing else. *)
Theorem remove_permissions (id organizationId userId userRole : string)
    (db db' : Db) :
  remove id organizationId userId userRole db = (Ok tt, db') ↔
  (∃ event, events db !! id = Some event
            ∧ EventsDb.organizationId event = organizationId
            ∧ ((userRole = "USER" ∧ createdById event = userId
                ∧ status event = DRAFT)
               ∨ (userRole ≠ "USER" ∧ userRole ≠ "MODERATOR")))
  ∧ db' = mkDb (delete id (events db)) (clock db).
Proof.
  unfold remove, throw. destruct (events db !! id) as [event|] eqn:Hev;
    repeat (case_bool_decide; simpl); naive_solver.
Qed.

(** X20.  [findOne] returns the event exactly when it exists in the
    caller's organization and the caller is not a USER asking for someone
    else's event; it never changes the table. *)
Theorem findOne_visibility (id organizationId userId userRole : string)
    (db db' : Db) (event : Event) :
  findOne id organizationId userId userRole db = (Ok event, db') ↔
  events db !! id = Some event
  ∧ EventsDb.organizationId event = organizationId
  ∧ (userRole = "USER" → createdById event = userId)
  ∧ db' = db.
Proof.
  unfold findOne, throw. destruct (events db !! id) as [ev|] eqn:Hev;
    repeat (case_bool_decide; simpl); naive_solver.
Qed.

Lemma remove_permissions_witness :
  remove "event-1" "org-1" "user-1" "USER" (Examples.table 0) = (Ok tt, mkDb ∅ 0).
Proof.
  apply (remove_permissions "event-1" "org-1" "user-1" "USER" (Examples.table 0)
           (mkDb ∅ 0)).
  split; [|reflexivity].
  exists Examples.draft. split; [reflexivity|]. split; [reflexivity|].
  left. repeat split.
Defined.

Lemma findOne_visibility_witness :
  findOne "event-1" "org-1" "user-7" "MODERATOR" (Examples.table 0)
  = (Ok Examples.draft, Examples.table 0).
Proof.
  apply (findOne_visibility "event-1" "org-1" "user-7" "MODERATOR"
           (Examples.table 0) (Examples.table 0) Examples.draft).
  split; [reflexivity|]. split; [reflexivity|]. split; [|reflexivity].
  intros H. discriminate H.
Defined.

(** X21.  A DRAFT submitted by its creator becomes SUBMITTED with no
    rejection reason.  Submitting it a second time is refused with status
    409 and changes nothing; a caller of the same organization who is not a
    USER can then approve it, after which it is APPROVED, or reject it,
    after which it is REJECTED with the reason given. *)
Theorem draft_lifecycle (id organizationId userId : string) (db : Db)
    (event : Event) :
  events db !! id = Some event →
  EventsDb.organizationId event = organizationId →
  createdById event = userId →
  status event = DRAFT →
  ∃ e1 db1,
    submit id organizationId userId db = (Ok e1, db1)
    ∧ events db1 !! id = Some e1
    ∧ status e1 = SUBMITTED ∧ rejectionReason e1 = None
    ∧ submit id organizationId userId db1
      = (Err (ConflictException "Cannot submit event with status SUBMITTED"), db1)
    ∧ ∀ userRole who, userRole ≠ "USER" →
        (∃ e2 db2, approve id organizationId userRole who db1 = (Ok e2, db2)
                   ∧ events db2 !! id = Some e2 ∧ status e2 = APPROVED)
        ∧ (∀ text, ∃ e2 db2,
             reject id (ReasonText text) organizationId userRole who db1
             = (Ok e2, db2)
             ∧ events db2 !! id = Some e2
             ∧ status e2 = REJECTED ∧ rejectionReason e2 = Some text).
Proof.
  intros Hev Horg Hown Hst.
  assert (Hno : ∀ (A : Type) (dec : EqDecision A) (a : A),
            bool_decide (a ≠ a) = false).
  { intros A dec a. apply bool_decide_eq_false_2. intros Hn. by apply Hn. }
  destruct (submit id organizationId userId db) as [o1 db1] eqn:Hsub.
  unfold submit, throw, prismaUpdate in Hsub. rewrite Hev in Hsub.
  rewrite Horg, Hown, Hst, !Hno in Hsub. simpl in Hsub.
  injection Hsub as <- <-.
  eexists _, _. split; [reflexivity|]. simpl.
  split; [apply lookup_insert_eq|]. split; [done|]. split; [done|]. split.
  - unfold submit, throw. simpl. rewrite lookup_insert_eq. simpl.
    rewrite Horg, Hown, !Hno. simpl. done.
  - intros userRole who Hrole. split; [|intros text].
    + unfold approve, throw, prismaUpdate. simpl.
      rewrite bool_decide_eq_false_2 by done. rewrite lookup_insert_eq. simpl.
      rewrite Horg, !Hno. simpl.
      eexists _, _. split; [reflexivity|]. simpl.
      split; [apply lookup_insert_eq|done].
    + unfold reject, throw, prismaUpdate. simpl.
      rewrite bool_decide_eq_false_2 by done. rewrite lookup_insert_eq. simpl.
      rewrite Horg, !Hno. simpl.
      eexists _, _. split; [reflexivity|]. simpl.
      split; [apply lookup_insert_eq|done].
Qed.

Lemma draft_lifecycle_witness :
  ∃ e1 db1,
    submit "event-1" "org-1" "user-1" (Examples.table 9) = (Ok e1, db1)
    ∧ status e1 = SUBMITTED
    ∧ submit "event-1" "org-1" "user-1" db1
      = (Err (ConflictException "Cannot submit event with status SUBMITTED"), db1).
Proof.
  destruct (draft_lifecycle "event-1" "org-1" "user-1" (Examples.table 9)
              Examples.draft) as (e1 & db1 & H1 & _ & H2 & _ & H3 & _);
    try reflexivity.
  exists e1, db1. split; [exact H1|]. split; [exact H2 | exact H3].
Defined.

(** X22.  [update], given a well-typed body, goes through exactly when
    the event exists in the caller's organization and the caller is not a
    USER, or is the USER who created it while it is still a DRAFT; the row
    it writes keeps the status and the rejection reason of the old one. *)
Theorem update_permissions (id : string) (dto : UpdateDto)
    (organizationId userId userRole : string) (db : Db) :
  ((∃ e' db', update id dto organizationId userId userRole db = (Ok e', db')) ↔
   ∃ event, events db !! id = Some event
            ∧ EventsDb.organizationId event = organizationId
            ∧ (userRole = "USER" →
               createdById event = userId ∧ status event = DRAFT))
  ∧ ∀ e' db', update id dto organizationId userId userRole db = (Ok e', db') →
      ∃ event, events db !! id = Some event
               ∧ events db' !! id = Some e'
               ∧ status e' = status event
               ∧ rejectionReason e' = rejectionReason event
               ∧ updatedAt e' = clock db.
Proof.
  unfold update, throw, prismaUpdate.
  destruct (events db !! id) as [event|] eqn:Hev;
    repeat (case_bool_decide; simpl);
    (split; [naive_solver|]); intros e' db' Hu; try discriminate Hu.
  all: injection Hu as <- <-; exists event; simpl;
    by rewrite lookup_insert_eq.
Qed.

Lemma update_permissions_witness :
  ∃ e' db',
    update "event-1" (mkUpdateDto (Some "Offsite") None (Some None) None None)
      "org-1" "user-1" "USER" (Examples.table 7) = (Ok e', db')
    ∧ title e' = "Offsite" ∧ location e' = None ∧ status e' = DRAFT.
Proof.
  destruct (proj2 (proj1 (update_permissions "event-1"
              (mkUpdateDto (Some "Offsite") None (Some None) None None)
              "org-1" "user-1" "USER" (Examples.table 7))))
    as (e' & db' & Hu).
  - exists Examples.draft. split; [reflexivity|]. split; [reflexivity|].
    intros _. split; reflexivity.
  - exists e', db'. split; [exact Hu|].
    injection Hu as <- _. repeat split.
Defined.

End EventsDbFacts.

(** * Properties of the routes *)

(** X23.  The idempotency key is not tied to the operation, the user or
    the organization it was first used with: once a create with a truthy
    key has returned a value, a submit, an approve or a reject that
    carries the same key while the record is younger than the TTL gets
    that value back, and the submit, approve or reject is not carried
    out. *)
Theorem key_shared_across_operations {Dto Query RejectDto Value : Type}
    `{!EventsService.Events Dto Query Value}
    `{!EventsRoutes.Moderation Dto RejectDto Value}
    (data : EventsService.CreatePayload Dto) (k : string) (v : Value)
    (w0 w1 w2 : World Value) :
  EventsService.idempotencyKey data = Some k →
  k ≠ "" →
  EventsService.create data w0 = (Ok v, w1) →
  cache w2 !! k = cache w1 !! k →
  (∀ record, cache w1 !! k = Some record → now w2 - timestamp record < ttlMs) →
  (∀ id userId organizationId correlationId,
     EventsRoutes.submit id userId organizationId correlationId (Some k) w2
     = (Ok v, emit (CacheGet k) w2))
  ∧ (∀ id organizationId role approvedBy correlationId,
       EventsRoutes.approve id organizationId role approvedBy correlationId (Some k) w2
       = (Ok v, emit (CacheGet k) w2))
  ∧ (∀ id rejectDto organizationId role rejectedBy correlationId,
       EventsRoutes.reject id rejectDto organizationId role rejectedBy
         correlationId (Some k) w2
       = (Ok v, emit (CacheGet k) w2)).
Proof.
  intros Hkey Hk Hcreate Hsame Hage.
  unfold EventsService.create in Hcreate. rewrite Hkey in Hcreate.
  destruct (checkAndStore_stores k _ w0 v w1 Hk Hcreate) as (record & Hrec & <-).
  assert (Hhit : ∀ operation,
            checkAndStore (Some k) operation w2
            = (Ok (response record), emit (CacheGet k) w2)).
  { intros operation. apply checkAndStore_hit; [done| |by apply Hage].
    by rewrite Hsame. }
  repeat split; intros; apply Hhit.
Qed.

Lemma key_shared_across_operations_witness :
  let data := EventsService.mkCreatePayload "retreat" "user-1" "org-1" None
                (Some "key-1") in
  let w1 := (EventsService.create data (Examples.fresh 0)).2 in
  EventsRoutes.submit "event-1" "user-2" "org-2" None (Some "key-1") w1
  = (Ok "created retreat", emit (CacheGet "key-1") w1).
Proof.
  intros data w1.
  apply (key_shared_across_operations (RejectDto := string) data "key-1"
           "created retreat" (Examples.fresh 0) w1 w1).
  - reflexivity.
  - discriminate.
  - reflexivity.
  - reflexivity.
  - intros record Hrec. vm_compute in Hrec. injection Hrec as <-.
    vm_compute. reflexivity.
Defined.

(** X24.  On the auth routes the gateway's correlation id takes the place
    of any [correlationId] field of the request body: the auth service
    splits off exactly the id the interceptor resolved, and passes on the
    body as the client sent it, less a [correlationId] field of its
    own. *)
Theorem auth_payload_round_trip (uuid : string) (request : Request)
    (response : Response) (body : gmap string JsValue) :
  let req := (intercept uuid request response).1 in
  AuthRoutes.splitCorrelation (AuthRoutes.withCorrelation body req)
  = (JString (resolve uuid request), delete "correlationId" body)
  ∧ (body !! "correlationId" = None →
     (AuthRoutes.splitCorrelation (AuthRoutes.withCorrelation body req)).2 = body).
Proof.
  intros req. unfold AuthRoutes.splitCorrelation, AuthRoutes.withCorrelation.
  simpl. rewrite lookup_insert_eq, delete_insert_eq. simpl. split; [done|].
  intros Hnone. by apply delete_id.
Qed.

Lemma auth_payload_round_trip_witness :
  let body : gmap string JsValue :=
    {[ "email" := JString "a@acme.com"; "password" := JString "Password123!" ]} in
  let req := (intercept "uuid-1" (Examples.inbound "abc-123") Examples.blank).1 in
  (AuthRoutes.splitCorrelation (AuthRoutes.withCorrelation body req)).2 = body.
Proof.
  intros body.
  apply (proj2 (auth_payload_round_trip "uuid-1" (Examples.inbound "abc-123")
                  Examples.blank body)).
  reflexivity.
Defined.

(** X25.  A create is put on the wire exactly once, whatever comes back:
    a rejection of the service, a transport failure or a timeout is handed
    to the client without a second send and without a wait. *)
Theorem create_is_sent_once {Dto Query Value : Type}
    `{!EventsService.Events Dto Query Value}
    `{!EventsRoutes.Moderation Dto Dto Value} `{!AuthRoutes.Auth Value}
    (net : nat → Gateway.Link) (wire : JsError → JsError)
    (createEventDto : Dto) (user : Gateway.User) (req : Request)
    (idempotencyKey : option string) (sys : Gateway.System Dto Query Value) :
  let r := Gateway.create net wire createEventDto user req idempotencyKey sys in
  invocations r = 1%nat
  ∧ delays r = []
  ∧ Gateway.sent (final r)
    = (Gateway.sent sys ++
       [Gateway.EventsCreate
          (EventsService.mkCreatePayload createEventDto (Gateway.id user)
             (Gateway.uorganizationId user) (correlationId req) idempotencyKey)])%list.
Proof.
  intros r.
  pose proof (sent_by_retry net wire (mkConfig (Some 1) None None None) 10000
                (Gateway.EventsCreate
                   (EventsService.mkCreatePayload createEventDto (Gateway.id user)
                      (Gateway.uorganizationId user) (correlationId req)
                      idempotencyKey)) sys) as Hsent.
  simpl in Hsent. fold (Gateway.create net wire createEventDto user req
                          idempotencyKey sys) in Hsent. fold r in Hsent.
  assert (Hr : invocations r = 1%nat ∧ delays r = []).
  { subst r. unfold Gateway.create. by rewrite retryWithBackoff_single. }
  destruct Hr as [Hinv Hdel]. rewrite Hinv in Hsent. done.
Qed.

Section FindAllFacts.
Context {Dto Query Value : Type} `{!EventsService.Events Dto Query Value}
  `{!EventsRoutes.Moderation Dto Dto Value} `{!AuthRoutes.Auth Value}.
Context (net : nat → Gateway.Link) (wire : JsError → JsError).

Lemma deliveries_S from n :
  Gateway.deliveries net from (Datatypes.S n)
  = ((if Gateway.isDelivered (net from) then 1 else 0)
     + Gateway.deliveries net (Datatypes.S from) n)%nat.
Proof.
  unfold Gateway.deliveries. simpl.
  by destruct (Gateway.isDelivered (net from)).
Qed.

(** A send of [events.findAll] runs the query on the service if, and only
    if, it is delivered. *)
Lemma findAll_runs_when_delivered due (data : EventsService.FindAllPayload Query)
    (n : nat) (sys : Gateway.System Dto Query Value) :
  invocationsIn
    (log (Gateway.service
            (stateAfter (Gateway.timeout due
                           (Gateway.send net wire (Gateway.EventsFindAll data)))
               n sys)))
  = (invocationsIn (log (Gateway.service sys))
     + Gateway.deliveries net (length (Gateway.sent sys)) n)%nat.
Proof.
  revert sys. induction n as [|n IH]; intros sys; simpl.
  - unfold Gateway.deliveries. simpl. lia.
  - rewrite IH, send_once, deliveries_S, length_app. simpl.
    replace (length (Gateway.sent sys) + 1)%nat
      with (Datatypes.S (length (Gateway.sent sys))) by lia.
    unfold Gateway.timeout, Gateway.send.
    destruct (net (length (Gateway.sent sys))) as [rtt|e after]; simpl.
    + unfold Gateway.dispatch, EventsService.findAll, call.
      destruct (EventsService.findAllPaginated _ _ _ _ _) as [o t'].
      case_bool_decide; simpl; rewrite invocationsIn_app; unfold invocationsIn;
        simpl; lia.
    + case_bool_decide; simpl; lia.
Qed.

End FindAllFacts.

(** X26.  A listing is sent at least once and at most three times, always
    as the same message; the waits between the sends are 1000 ms and then
    2000 ms; and the query runs on the events-service once for each send
    that is delivered, not at all for a send whose connection fails. *)
Theorem findAll_is_sent_at_most_thrice {Dto Query Value : Type}
    `{!EventsService.Events Dto Query Value}
    `{!EventsRoutes.Moderation Dto Dto Value} `{!AuthRoutes.Auth Value}
    (net : nat → Gateway.Link) (wire : JsError → JsError)
    (query : Query) (user : Gateway.User) (req : Request)
    (sys : Gateway.System Dto Query Value) :
  let r := Gateway.findAll net wire query user req sys in
  let msg := Gateway.EventsFindAll
               (EventsService.mkFindAllPayload query (Gateway.id user)
                  (Gateway.uorganizationId user) (Gateway.urole user)
                  (correlationId req)) in
  (1 ≤ invocations r ≤ 3)%nat
  ∧ delays r = take (invocations r - 1) [1000; 2000]
  ∧ Gateway.sent (final r) = (Gateway.sent sys ++ replicate (invocations r) msg)%list
  ∧ invocationsIn (log (Gateway.service (final r)))
    = (invocationsIn (log (Gateway.service sys))
       + length (List.filter (λ i, Gateway.isDelivered (net i))
                   (seq (length (Gateway.sent sys)) (invocations r))))%nat.
Proof.
  intros r msg. subst r. unfold Gateway.findAll.
  destruct (retry_run_shape_aux (mkConfig (Some 3) None None None)
              (Gateway.timeout 10000 (Gateway.send net wire msg)) sys)
    as (Hlow & Hhigh & Hdelays).
  fold msg.
  change (maxAttemptsOf (mkConfig (Some 3) None None None)) with 3 in Hhigh.
  split; [lia|]. split.
  - rewrite Hdelays.
    destruct (invocations _) as [|[|[|[|n]]]]; try reflexivity; lia.
  - split; [apply sent_by_retry|].
    unfold retryWithBackoff. rewrite retryFrom_final.
    apply findAll_runs_when_delivered.
Qed.

(** Two refused connections and then a delivered one: three sends, waits
    of 1000 ms and 2000 ms, and the query has run once. *)
Lemma findAll_is_sent_at_most_thrice_witness :
  let sys : Gateway.System string string string :=
    Gateway.mkSystem (Examples.fresh 1000) [] in
  let r := Gateway.findAll (H := Examples.quickList) (Examples.flaky 2 3) id
             "page=1" Examples.alice (Examples.inbound "abc-123") sys in
  result r = Ok "[]"
  ∧ invocations r = 3%nat
  ∧ delays r = [1000; 2000]
  ∧ invocationsIn (log (Gateway.service (final r))) = 1%nat.
Proof.
  intros sys.
  destruct (findAll_is_sent_at_most_thrice (H := Examples.quickList)
              (Examples.flaky 2 3) id "page=1" Examples.alice
              (Examples.inbound "abc-123") sys) as (_ & Hdelays & _ & Hruns).
  split; [reflexivity|]. split; [reflexivity|].
  split; [exact Hdelays | exact Hruns].
Defined.

(** X27.  A client that repeats a create with the same idempotency key,
    for instance because the first answer ran into the gateway's timeout,
    does not create a second event: the first request runs the operation
    and stores its result even when its reply comes too late, and the
    second request, made while the record is younger than the TTL, is
    answered with that result without the operation running again.  Both
    messages are taken to reach the events-service. *)
Theorem repeated_create_is_deduplicated {Dto Query Value : Type}
    `{!EventsService.Events Dto Query Value}
    `{!EventsRoutes.Moderation Dto Dto Value} `{!AuthRoutes.Auth Value}
    (net : nat → Gateway.Link) (rtt1 rtt2 : Z)
    (wire : JsError → JsError) (dto dto2 : Dto) (user user2 : Gateway.User)
    (req req2 : Request) (k : string) (sys : Gateway.System Dto Query Value)
    (v : Value) (t' t2 : Z) :
  net (length (Gateway.sent sys)) = Gateway.Delivered rtt1 →
  net (Datatypes.S (length (Gateway.sent sys))) = Gateway.Delivered rtt2 →
  k ≠ "" →
  cache (Gateway.service sys) !! k = None →
  EventsService.createEvent dto (Gateway.id user) (Gateway.uorganizationId user)
    (now (Gateway.service sys)) = (Ok v, t') →
  t2 - t' < ttlMs →
  let r1 := Gateway.create net wire dto user req (Some k) sys in
  let sys2 :=
    Gateway.mkSystem
      (mkWorld (cache (Gateway.service (final r1))) t2
         (log (Gateway.service (final r1))))
      (Gateway.sent (final r1)) in
  let r2 := Gateway.create net wire dto2 user2 req2 (Some k) sys2 in
  Gateway.firstValueFrom r1
  = (if bool_decide (10000 < rtt1 + (t' - now (Gateway.service sys)))
     then Err Gateway.TimeoutError else Ok v)
  ∧ invocationsIn (log (Gateway.service (final r1)))
    = Datatypes.S (invocationsIn (log (Gateway.service sys)))
  ∧ Gateway.firstValueFrom r2
    = (if bool_decide (10000 < rtt2) then Err Gateway.TimeoutError else Ok v)
  ∧ invocationsIn (log (Gateway.service (final r2)))
    = invocationsIn (log (Gateway.service (final r1))).
Proof.
  intros Hnet1 Hnet2 Hk Hnone Hop Hage r1 sys2 r2.
  set (w := Gateway.service sys) in *.
  set (w1 := (proceed k (EventsService.createEvent dto (Gateway.id user)
                           (Gateway.uorganizationId user))
                (cache w) (now w) (log w ++ [CacheGet k])).2).
  assert (Hr1 : r1 = mkRun
            (if bool_decide (10000 < rtt1 + (t' - now w))
             then Err Gateway.TimeoutError else Ok v) 1 []
            (Gateway.mkSystem w1
               (Gateway.sent sys ++
                [Gateway.EventsCreate
                   (EventsService.mkCreatePayload dto (Gateway.id user)
                      (Gateway.uorganizationId user) (correlationId req)
                      (Some k))]))).
  { subst r1. unfold Gateway.create. rewrite retryWithBackoff_single by done.
    unfold Gateway.timeout, Gateway.send. rewrite Hnet1.
    unfold Gateway.dispatch, EventsService.create.
    simpl. fold w. rewrite (checkAndStore_absent _ _ _ Hk Hnone).
    subst w1. unfold proceed. rewrite Hop. simpl.
    by case_bool_decide. }
  assert (Hrec : cache w1 !! k = Some (mkRecord k v t')).
  { subst w1. by apply proceed_success. }
  assert (Hinv1 : invocationsIn (log w1) = Datatypes.S (invocationsIn (log w))).
  { subst w1. destruct (proceed_invokes k
      (EventsService.createEvent dto (Gateway.id user) (Gateway.uorganizationId user))
      (cache w) (now w) (log w ++ [CacheGet k])) as [_ ->].
    rewrite invocationsIn_app. unfold invocationsIn. simpl. lia. }
  assert (Hr2 : r2 = mkRun
            (if bool_decide (10000 < rtt2)
             then Err Gateway.TimeoutError else Ok v) 1 []
            (Gateway.mkSystem (emit (CacheGet k) (mkWorld (cache w1) t2 (log w1)))
               (Gateway.sent sys2 ++
                [Gateway.EventsCreate
                   (EventsService.mkCreatePayload dto2 (Gateway.id user2)
                      (Gateway.uorganizationId user2) (correlationId req2)
                      (Some k))]))).
  { subst r2 sys2. rewrite Hr1. simpl.
    unfold Gateway.create. rewrite retryWithBackoff_single by done.
    unfold Gateway.timeout, Gateway.send. simpl. rewrite length_app. simpl.
    replace (length (Gateway.sent sys) + 1)%nat
      with (Datatypes.S (length (Gateway.sent sys))) by lia.
    rewrite Hnet2. unfold Gateway.dispatch, EventsService.create.
    simpl.
    rewrite (checkAndStore_hit k _ (mkWorld (cache w1) t2 (log w1))
               (mkRecord k v t') Hk Hrec Hage).
    simpl. replace (rtt2 + (t2 - t2)) with rtt2 by lia.
    by destruct (bool_decide (10000 < rtt2)). }
  rewrite Hr1, Hr2. simpl. split; [done|]. split; [exact Hinv1|].
  split; [done|].
  rewrite invocationsIn_app. unfold invocationsIn. simpl. lia.
Qed.

Lemma repeated_create_is_deduplicated_witness :
  let sys : Gateway.System string string string :=
    Gateway.mkSystem (Examples.fresh 1000) [] in
  let r1 := Gateway.create Examples.congested id "retreat" Examples.alice
              (Examples.inbound "abc-123") (Some "key-1") sys in
  let sys2 :=
    Gateway.mkSystem
      (mkWorld (cache (Gateway.service (final r1))) 9000
         (log (Gateway.service (final r1))))
      (Gateway.sent (final r1)) in
  let r2 := Gateway.create Examples.congested id "retreat" Examples.alice
              (Examples.inbound "abc-124") (Some "key-1") sys2 in
  Gateway.firstValueFrom r1 = Err Gateway.TimeoutError
  ∧ Gateway.firstValueFrom r2 = Ok "created retreat"
  ∧ invocationsIn (log (Gateway.service (final r2))) = 1%nat.
Proof.
  intros sys.
  destruct (repeated_create_is_deduplicated Examples.congested 9990 3 id
              "retreat" "retreat"
              Examples.alice Examples.alice (Examples.inbound "abc-123")
              (Examples.inbound "abc-124") "key-1" sys "created retreat" 1020 9000)
    as (H1 & H2 & H3 & H4).
  - reflexivity.
  - reflexivity.
  - discriminate.
  - reflexivity.
  - reflexivity.
  - vm_compute. reflexivity.
  - split; [exact H1|]. split; [exact H3|]. rewrite H4. exact H2.
Defined.

(** * The retry and timeout policy of each route *)
Section RoutePolicy.
Context {Dto Query Value : Type} `{!EventsService.Events Dto Query Value}
  `{!EventsRoutes.Moderation Dto Dto Value} `{!AuthRoutes.Auth Value}.
Context (net : nat → Gateway.Link) (wire : JsError → JsError).

(** What [send(...).pipe(timeout(due), retryWithBackoff({ maxAttempts }))]
    does when the connection fails at the first subscription. *)
Lemma pipe_policy (attempts due : Z) (msg : Gateway.Message Dto Query)
    (sys : Gateway.System Dto Query Value) :
  1 ≤ attempts ≤ 3 →
  let r := retryWithBackoff (mkConfig (Some attempts) None None None)
             (Gateway.timeout due (Gateway.send net wire msg)) sys in
  (1 ≤ invocations r)%nat
  ∧ Z.of_nat (invocations r) ≤ attempts
  ∧ delays r = take (invocations r - 1) [1000; 2000]
  ∧ ∀ error after,
      net (length (Gateway.sent sys)) = Gateway.Failed error after →
      (due < after → result r = Err Gateway.TimeoutError ∧ invocations r = 1%nat)
      ∧ (after ≤ due → isRetryable emptyConfig error = false →
         result r = Err error ∧ invocations r = 1%nat)
      ∧ (after ≤ due → isRetryable emptyConfig error = true → 1 < attempts →
         (1 < invocations r)%nat).
Proof.
  intros Hatt r.
  destruct (retry_run_shape_aux (mkConfig (Some attempts) None None None)
              (Gateway.timeout due (Gateway.send net wire msg)) sys)
    as (Hlow & Hhigh & Hdelays).
  fold r in Hlow, Hhigh, Hdelays.
  change (maxAttemptsOf (mkConfig (Some attempts) None None None))
    with attempts in Hhigh.
  split; [exact Hlow|]. split; [lia|]. split.
  { rewrite Hdelays.
    destruct (invocations r) as [|[|[|[|n]]]]; try reflexivity; lia. }
  intros error after Hnet.
  assert (Hfirst : Gateway.timeout due (Gateway.send net wire msg) sys
                   = (if bool_decide (due < after) then Err Gateway.TimeoutError
                      else Err error,
                      Gateway.mkSystem (Gateway.service sys)
                        (Gateway.sent sys ++ [msg]))).
  { unfold Gateway.timeout, Gateway.send. rewrite Hnet. by case_bool_decide. }
  split; [|split].
  - intros Hlate. rewrite bool_decide_eq_true_2 in Hfirst by done.
    destruct (non_retryable_step (mkConfig (Some attempts) None None None) _ _ _ _
                Hfirst eq_refl) as (Hres & Hinv & _).
    done.
  - intros Hsoon Hnot. rewrite bool_decide_eq_false_2 in Hfirst by lia.
    destruct (non_retryable_step (mkConfig (Some attempts) None None None) _ _ _ _
                Hfirst Hnot) as (Hres & Hinv & _).
    done.
  - intros Hsoon Hyes Hmore. rewrite bool_decide_eq_false_2 in Hfirst by lia.
    subst r. unfold retryWithBackoff. rewrite retryFrom_unfold, Hfirst.
    unfold givesUp.
    change (maxAttemptsOf (mkConfig (Some attempts) None None None)) with attempts.
    change (isRetryable (mkConfig (Some attempts) None None None) error)
      with (isRetryable emptyConfig error).
    rewrite Hyes, bool_decide_eq_false_2 by lia. simpl.
    pose proof (retryFrom_shape (mkConfig (Some attempts) None None None)
                  (Gateway.timeout due (Gateway.send net wire msg)) 1
                  (Gateway.mkSystem (Gateway.service sys) (Gateway.sent sys ++ [msg])))
      as (Hone & _).
    simpl in Hone. lia.
Qed.

End RoutePolicy.

(** X29.  The policy of each route of the gateway.  A request that
    reaches its handler is sent at least once and at most three times on
    the reading routes (list events, get an event, get the current user),
    twice on signup and login, and once on every route that changes an
    event; the waits between sends are 1000 ms and then 2000 ms.  When the
    connection fails at the first send, a failure that takes longer than
    the route's timeout (5 s for get an event, get the current user, signup
    and login, 10 s otherwise) is reported as a timeout and not retried; an
    earlier one is reported as it is, without a second send, if it is not
    retryable, and is followed by a second send if it is retryable and the
    route allows more than one. *)
Theorem gateway_route_policy {Dto Query Value : Type}
    `{!EventsService.Events Dto Query Value}
    `{!EventsRoutes.Moderation Dto Dto Value} `{!AuthRoutes.Auth Value}
    (net : nat → Gateway.Link) (wire : JsError → JsError)
    (guard : Request → option Gateway.User) (uuid : string)
    (route : Gateway.Route Dto Query) (request : Request) (response : Response)
    (sys : Gateway.System Dto Query Value)
    (r : Run (S := Gateway.System Dto Query Value) (T := Value)) (res : Response) :
  Gateway.serve net wire guard uuid route request response sys = (Some r, res) →
  let attempts :=
    match route with
    | Gateway.Behind (Gateway.GetEvents _)
    | Gateway.Behind (Gateway.GetEvent _)
    | Gateway.Behind Gateway.GetMe => 3
    | Gateway.Open _ => 2
    | Gateway.Behind _ => 1
    end in
  let due :=
    match route with
    | Gateway.Behind (Gateway.GetEvent _)
    | Gateway.Behind Gateway.GetMe
    | Gateway.Open _ => 5000
    | Gateway.Behind _ => 10000
    end in
  (1 ≤ invocations r)%nat
  ∧ Z.of_nat (invocations r) ≤ attempts
  ∧ delays r = take (invocations r - 1) [1000; 2000]
  ∧ ∀ error after,
      net (length (Gateway.sent sys)) = Gateway.Failed error after →
      (due < after → result r = Err Gateway.TimeoutError ∧ invocations r = 1%nat)
      ∧ (after ≤ due → isRetryable emptyConfig error = false →
         result r = Err error ∧ invocations r = 1%nat)
      ∧ (after ≤ due → isRetryable emptyConfig error = true → 1 < attempts →
         (1 < invocations r)%nat).
Proof.
  intros Hserve attempts due. unfold Gateway.serve, intercept in Hserve.
  destruct route as [g|p].
  - destruct (guard request) as [user|]; [|discriminate Hserve].
    injection Hserve as <- _. subst attempts due.
    destruct g; simpl; apply pipe_policy; lia.
  - injection Hserve as <- _. subst attempts due.
    destruct p; simpl; apply pipe_policy; lia.
Qed.

(** Getting an event when the first connection is refused at once and the
    second stands: two sends one second apart, and the event. *)
Lemma gateway_route_policy_witness :
  let sys : Gateway.System string string string :=
    Gateway.mkSystem (Examples.fresh 1000) [] in
  let r := Gateway.findOne (Examples.flaky 1 3) id "event-1"
             (Gateway.mkUser "user-7" "org-1" "USER")
             (mkRequest {[ "authorization" := "user-7" ]} (Some "6f1c2a0e-uuid"))
             sys in
  (1 < invocations r)%nat ∧ delays r = take (invocations r - 1) [1000; 2000]
  ∧ result r = Ok "found".
Proof.
  intros sys r.
  destruct (gateway_route_policy (Examples.flaky 1 3) id Examples.bearer
              "6f1c2a0e-uuid" (Gateway.Behind (Gateway.GetEvent "event-1"))
              (Examples.signedIn "user-7") Examples.blank sys r
              (mkResponse {[ "X-Correlation-ID" := "6f1c2a0e-uuid" ]}))
    as (_ & _ & Hdelays & Hfailed).
  - reflexivity.
  - destruct (Hfailed Examples.refused 1) as (_ & _ & Hretry); [reflexivity|].
    split; [apply Hretry; [lia|reflexivity|lia]|].
    split; [exact Hdelays|reflexivity].
Defined.



(** * Properties of the organization slug *)
Section SlugFacts.
Import Slug.

Example slug_examples :
  slug "Acme Inc." = "acme-inc"
  ∧ slug "  --Hello,  World!! " = "hello-world"
  ∧ slug "ACME, inc" = "acme-inc"
  ∧ slug "R&D" = "r-d".
Proof. repeat split; reflexivity. Qed.

Lemma dash_not_slugChar : isSlugChar dash = false.
Proof. reflexivity. Qed.

Lemma slugChar_not_dash c : isSlugChar c = true → c ≠ dash.
Proof. intros H ->. by rewrite dash_not_slugChar in H. Qed.

Lemma slugChar_lower c : isSlugChar c = true → lower c = c.
Proof.
  unfold isSlugChar, lower, isUpper. intros H.
  destruct (65 <=? nat_of_ascii c)%nat eqn:H1; [|done].
  destruct (nat_of_ascii c <=? 90)%nat eqn:H2; [|done]. simpl.
  apply Nat.leb_le in H1, H2.
  apply orb_true_iff in H as [H|H]; apply andb_true_iff in H as [H3 H4];
    apply Nat.leb_le in H3, H4; lia.
Qed.

Lemma dashRuns_chars b s :
  Forall (λ c, isSlugChar c = true ∨ c = dash) (dashRuns b s).
Proof.
  revert b. induction s as [|c s IH]; intros b; simpl; [constructor|].
  destruct (isSlugChar c) eqn:Hc; [constructor; auto|].
  destruct b; [apply IH|constructor; auto].
Qed.

Lemma dashRuns_head_in_run s : head (dashRuns true s) ≠ Some dash.
Proof.
  induction s as [|c s IH]; simpl; [done|].
  destruct (isSlugChar c) eqn:Hc; [|done]. simpl.
  intros [= ->]. by rewrite dash_not_slugChar in Hc.
Qed.

Lemma dashRuns_noDouble b s : noDoubleDash (dashRuns b s).
Proof.
  revert b. induction s as [|c s IH]; intros b; simpl; [done|].
  destruct (isSlugChar c) eqn:Hc.
  - simpl. split; [|apply IH]. intros ->. by rewrite dash_not_slugChar in Hc.
  - destruct b; [apply IH|]. simpl. split; [|apply IH].
    intros _. apply dashRuns_head_in_run.
Qed.

Lemma noDouble_tail c s : noDoubleDash (c :: s) → noDoubleDash s.
Proof. simpl. tauto. Qed.

Lemma dropLeadingDash_spec s :
  noDoubleDash s →
  Forall (λ c, isSlugChar c = true ∨ c = dash) s →
  noDoubleDash (dropLeadingDash s)
  ∧ Forall (λ c, isSlugChar c = true ∨ c = dash) (dropLeadingDash s)
  ∧ head (dropLeadingDash s) ≠ Some dash.
Proof.
  destruct s as [|c s]; simpl; [done|]. intros [Hh Hn] Hf.
  case_bool_decide as Hc.
  - subst c. split; [done|]. split; [by inversion Hf|]. by apply Hh.
  - split; [done|]. split; [done|]. simpl. congruence.
Qed.

Lemma dropTrailingDash_chars (P : ascii → Prop) s :
  Forall P s → Forall P (dropTrailingDash s).
Proof.
  induction s as [|c s IH]; [done|]. intros Hf.
  inversion Hf as [|? ? Hc Hf']; subst. destruct s as [|c' s].
  - simpl. case_bool_decide; by constructor.
  - change (dropTrailingDash (c :: c' :: s)) with (c :: dropTrailingDash (c' :: s)).
    constructor; auto.
Qed.

Lemma dropTrailingDash_head s x :
  head (dropTrailingDash s) = Some x → head s = Some x.
Proof.
  destruct s as [|c [|c' s]]; simpl; try done. by case_bool_decide.
Qed.

Lemma dropTrailingDash_noDouble s :
  noDoubleDash s → noDoubleDash (dropTrailingDash s).
Proof.
  induction s as [|c s IH]; [done|]. intros [Hh Hn]. destruct s as [|c' s].
  - simpl. by case_bool_decide.
  - change (dropTrailingDash (c :: c' :: s)) with (c :: dropTrailingDash (c' :: s)).
    split; [|by apply IH]. intros Hc Hd.
    apply dropTrailingDash_head in Hd. by apply Hh.
Qed.

Lemma dropTrailingDash_last s :
  noDoubleDash s → last (dropTrailingDash s) ≠ Some dash.
Proof.
  induction s as [|c s IH]; [done|]. intros [Hh Hn]. destruct s as [|c' s].
  - simpl. case_bool_decide; simpl; [done|congruence].
  - change (dropTrailingDash (c :: c' :: s)) with (c :: dropTrailingDash (c' :: s)).
    specialize (IH Hn).
    destruct (dropTrailingDash (c' :: s)) as [|d ds] eqn:Hd.
    + simpl. intros [= ->]. apply Hh; [done|]. simpl.
      destruct s as [|c'' s]; [|done]. simpl in Hd.
      case_bool_decide; [by subst|done].
    + exact IH.
Qed.

(** On a tidy list each step of [slugChars] changes nothing. *)
Lemma dashRuns_tidy b s :
  Forall (λ c, isSlugChar c = true ∨ c = dash) s →
  noDoubleDash s →
  (b = true → head s ≠ Some dash) →
  dashRuns b s = s.
Proof.
  revert b. induction s as [|c s IH]; intros b Hf Hnd Hb; [done|].
  destruct Hnd as [Hh Hn]. inversion Hf as [|? ? Hc Hf']; subst. simpl.
  destruct (isSlugChar c) eqn:Hs.
  - f_equal. apply IH; try done.
  - destruct Hc as [Hc| ->]; [done|].
    destruct b; [exfalso; by apply Hb|]. f_equal. apply IH; try done.
    intros _. by apply Hh.
Qed.

Lemma lower_tidy s :
  Forall (λ c, isSlugChar c = true ∨ c = dash) s → lower <$> s = s.
Proof.
  induction 1 as [|c s Hc _ IH]; [done|]. rewrite fmap_cons, IH. f_equal.
  destruct Hc as [Hc| ->]; [by apply slugChar_lower|reflexivity].
Qed.

Lemma dropLeadingDash_tidy s : head s ≠ Some dash → dropLeadingDash s = s.
Proof.
  destruct s as [|c s]; simpl; [done|]. intros Hh.
  rewrite bool_decide_eq_false_2; [done|congruence].
Qed.

Lemma dropTrailingDash_tidy s : last s ≠ Some dash → dropTrailingDash s = s.
Proof.
  induction s as [|c s IH]; [done|]. destruct s as [|c' s].
  - simpl. intros Hl. rewrite bool_decide_eq_false_2; [done|congruence].
  - intros Hl.
    change (dropTrailingDash (c :: c' :: s)) with (c :: dropTrailingDash (c' :: s)).
    f_equal. by apply IH.
Qed.

Lemma slugChars_tidy name : tidy (slugChars name).
Proof.
  unfold slugChars, tidy.
  destruct (dropLeadingDash_spec (dashRuns false (lower <$> name))
              (dashRuns_noDouble _ _) (dashRuns_chars _ _)) as (Hn & Hf & Hh).
  split; [by apply dropTrailingDash_chars|].
  split; [by apply dropTrailingDash_noDouble|].
  split; [|by apply dropTrailingDash_last].
  intros Hd. by apply dropTrailingDash_head in Hd.
Qed.

Lemma slugChars_idempotent name : slugChars (slugChars name) = slugChars name.
Proof.
  destruct (slugChars_tidy name) as (Hf & Hn & Hh & Hl).
  unfold slugChars at 1.
  rewrite (lower_tidy _ Hf), (dashRuns_tidy false _ Hf Hn) by done.
  by rewrite (dropLeadingDash_tidy _ Hh), (dropTrailingDash_tidy _ Hl).
Qed.

(** X28.  For a name of ASCII characters, the slug consists of characters
    of [[a-z0-9]] and single dashes between them, with no dash at either
    end; and the slug of a slug is the slug itself. *)
Theorem slug_is_tidy_and_stable (organizationName : string) :
  Forall (λ c, (nat_of_ascii c < 128)%nat)
    (String.list_ascii_of_string organizationName) →
  tidy (String.list_ascii_of_string (slug organizationName))
  ∧ slug (slug organizationName) = slug organizationName.
Proof.
  intros _. unfold slug.
  rewrite !String.list_ascii_of_string_of_list_ascii.
  split; [apply slugChars_tidy|]. by rewrite slugChars_idempotent.
Qed.

Lemma slug_is_tidy_and_stable_witness :
  tidy (String.list_ascii_of_string (slug "  --Hello,  World!! "))
  ∧ slug (slug "  --Hello,  World!! ") = slug "  --Hello,  World!! ".
Proof.
  apply (slug_is_tidy_and_stable "  --Hello,  World!! ").
  repeat constructor.
Defined.

End SlugFacts.
